(** * Collaborative whiteboard: shape identifiers, the message relay and
      the canvas listeners

    The parts of the whiteboard embedded here, each in its own module:

    - [JsString]: the string operations of the language the code relies on;
    - [ShapeId]: the client's [generateShapeId]
      (interview-prep/concurrency-explanation.md:16);
    - [Client]: the shapes of a client, their serialization and
      [deleteShape] (interview-prep/concurrency-explanation.md:606);
    - [Prisma] and [Relay]: the [Chat] table and the WebSocket server's
      message handler with its in-memory [users] registry
      (interview-prep/concurrency-deep-dive.md:80,
      interview-prep/concurrency-explanation.md:626,
      interview-prep/sample-answers.md:485);
    - [ZoomAndPan]: the listeners that [initZoomAndPan] leaves on the
      canvas element (unnamed/part_001);
    - [Touch]: the touch handlers of the canvas (unnamed/part_001);
    - [RoomCache], [RateLimit], [Sanitize], [Validation], [Batch] and
      [Metrics]: the cache, the rate limiter, the input checks, the batched
      writes and the query metrics of
      interview-prep/concurrency-explanation.md;
    - [Crdt] and [EventSourcing]: [mergeShapes] and [resolveConflicts] of
      interview-prep/concurrency-deep-dive.md;
    - [Server]: the process that runs the message listener, which ends
      when the listener is rejected
      (interview-prep/concurrency-deep-dive.md:80);
    - [JsonText]: the predicates on identifiers and field names used for
      the text a delete looks for.

    The definitions come first; the facts about them follow, module by
    module. *)

From Stdlib Require Import List String Ascii Bool Arith ZArith Lia.
From Stdlib Require Import DecimalString DecimalZ.
Import ListNotations.

Local Open Scope string_scope.

(** ** Strings as JavaScript uses them *)

Module JsString.

(** [s.substr(start, len)] for non-negative [start] and [len]: the [len]
    characters from position [start] on, fewer when the string ends
    before, none when [start] is at or past the end. *)
Fixpoint substr (start len : nat) (s : string) : string :=
  match start, s with
  | _, EmptyString => EmptyString
  | S start', String _ s' => substr start' len s'
  | O, String c s' =>
      match len with
      | O => EmptyString
      | S len' => String c (substr O len' s')
      end
  end.

(** [s.startsWith(p)]. *)
Fixpoint startsWith (p s : string) : bool :=
  match p, s with
  | EmptyString, _ => true
  | String _ _, EmptyString => false
  | String a p', String b s' => Ascii.eqb a b && startsWith p' s'
  end.

(** [s.includes(p)]: [p] occurs in [s] at some position.  This is also
    what the query layer's [contains] filter on a text column checks. *)
Fixpoint includes (p s : string) : bool :=
  startsWith p s ||
  match s with
  | EmptyString => false
  | String _ s' => includes p s'
  end.

(** Template-literal rendering of an integer: [`${n}`]. *)
Definition ofZ (n : Z) : string := NilZero.string_of_int (Z.to_int n).

(** The characters of a string, in order. *)
Definition chars (s : string) : list ascii := list_ascii_of_string s.

(** Digits and lower-case letters: the alphabet of [toString(36)]. *)
Definition isBase36 (c : ascii) : bool :=
  let n := nat_of_ascii c in
  (Nat.leb 48 n && Nat.leb n 57) || (Nat.leb 97 n && Nat.leb n 122).

(** The double-quote character and a text between double quotes. *)
Definition dquote : string := String (ascii_of_nat 34) EmptyString.

Definition quoted (s : string) : string := dquote ++ s ++ dquote.

(** One hexadecimal digit, lower case. *)
Definition hexDigit (n : nat) : ascii :=
  if Nat.ltb n 10 then ascii_of_nat (48 + n) else ascii_of_nat (87 + n).

(** [JSON.stringify] of one character of a string: the quote, the
    backslash and the control characters are escaped. *)
Definition escapeJSON (c : ascii) : string :=
  let n := nat_of_ascii c in
  let bs := String (ascii_of_nat 92) EmptyString in
  if Nat.eqb n 34 then bs ++ dquote
  else if Nat.eqb n 92 then bs ++ bs
  else if Nat.eqb n 8 then bs ++ "b"
  else if Nat.eqb n 9 then bs ++ "t"
  else if Nat.eqb n 10 then bs ++ "n"
  else if Nat.eqb n 12 then bs ++ "f"
  else if Nat.eqb n 13 then bs ++ "r"
  else if Nat.ltb n 32 then
    bs ++ "u00" ++ String (hexDigit (n / 16)) (String (hexDigit (n mod 16)) EmptyString)
  else String c EmptyString.

(** [JSON.stringify(s)] for a string [s]. *)
Fixpoint stringifyBody (s : string) : string :=
  match s with
  | EmptyString => EmptyString
  | String c s' => escapeJSON c ++ stringifyBody s'
  end.

Definition stringifyString (s : string) : string :=
  dquote ++ stringifyBody s ++ dquote.

End JsString.

(** ** Shape identifiers *)

Module ShapeId.
Import JsString.

(** The random part of an identifier:
    [Math.random().toString(36).substr(2, 9)].  The base-36 rendering of
    the random number is the argument [rnd36]: JavaScript writes a number
    of [[0,1)] as "0." followed by as many base-36 digits as identify the
    double, and as "0" alone when it is zero (one half is "0.i"). *)
Definition randomSuffix (rnd36 : string) : string := substr 2 9 rnd36.

(** [generateShapeId()]:
    [`shape_${Date.now()}_${Math.random().toString(36).substr(2, 9)}`],
    with the clock reading [now] (milliseconds) and the rendering of the
    random number as arguments. *)
Definition generateShapeId (now : Z) (rnd36 : string) : string :=
  "shape_" ++ ofZ now ++ "_" ++ randomSuffix rnd36.

End ShapeId.

(** ** Shapes on the client *)

Module Client.
Import JsString.

(** A drawn object: its identifier, its kind and its numeric geometry
    fields in the order the object literal lists them, as
    [{ id, type: "circle", centerX: 100, centerY: 100, radius: 50 }]. *)
Record Shape := {
  id : string;
  type : string;
  geometry : list (string * Z)
}.

(** [JSON.stringify] of the geometry fields, each preceded by a comma. *)
Fixpoint stringifyGeometry (g : list (string * Z)) : string :=
  match g with
  | [] => EmptyString
  | (k, v) :: g' => "," ++ quoted k ++ ":" ++ ofZ v ++ stringifyGeometry g'
  end.

(** [JSON.stringify({ shape })]: the [message] of a draw. *)
Definition stringifyShape (shape : Shape) : string :=
  "{" ++ quoted "shape" ++ ":{"
      ++ quoted "id" ++ ":" ++ stringifyString (id shape) ++ ","
      ++ quoted "type" ++ ":" ++ stringifyString (type shape)
      ++ stringifyGeometry (geometry shape) ++ "}}".

(** The local half of [deleteShape(shapeId)]:
    [existingShapes.filter(shape => shape.id !== shapeId)]; the shape
    list of a member that applies a delete directive. *)
Definition deleteShape (shapeId : string) (existingShapes : list Shape)
  : list Shape :=
  filter (fun shape => negb (String.eqb (id shape) shapeId)) existingShapes.

End Client.

(** ** The table of drawing operations *)

Module Prisma.

(** A row of the [Chat] table, with the columns a handler writes or
    filters on ([id] and [createdAt] are filled in by the database and
    read by no handler). *)
Record Chat := {
  roomId : Z;
  message : string;
  userId : string
}.

End Prisma.

(** ** The relay: registry, store and message handler *)

Module Relay.
Import JsString.

(** The state of a socket of the [ws] library. *)
Inductive ReadyState := CONNECTING | OPEN | CLOSING | CLOSED.

Definition isOPEN (r : ReadyState) : bool :=
  match r with OPEN => true | _ => false end.

(** A server-side socket: its identity and its current state. *)
Record WebSocket := {
  sock : nat;
  readyState : ReadyState
}.

(** An entry of the module-level [users] array. *)
Record User := {
  ws : WebSocket;
  rooms : list string;
  userId : string
}.

(** The parsed inbound envelope, [parsedData]. *)
Record ParsedData := {
  type : string;
  roomId : string;
  message : string;
  shapeId : string
}.

(** The objects the server passes to [JSON.stringify] and sends. *)
Inductive ServerMsg :=
| chat_msg (message roomId : string)
| delete_shape_msg (shapeId roomId : string)
| clear_canvas_msg (roomId : string)
| operation_failed_msg (roomId : string).

(** What the handler reads and changes: the registry, the table, whether
    the database answers the next query, and the calls of [ws.send] made
    so far (socket and message, oldest first). *)
Record World := {
  users : list User;
  chatTable : list Prisma.Chat;
  storeUp : bool;
  sent : list (nat * ServerMsg)
}.

Definition withUsers (us : list User) (w : World) : World :=
  {| users := us; chatTable := chatTable w; storeUp := storeUp w; sent := sent w |}.

Definition withChatTable (t : list Prisma.Chat) (w : World) : World :=
  {| users := users w; chatTable := t; storeUp := storeUp w; sent := sent w |}.

Definition withSent (s : list (nat * ServerMsg)) (w : World) : World :=
  {| users := users w; chatTable := chatTable w; storeUp := storeUp w; sent := s |}.

(** An [async] computation settles: it is fulfilled with a value, or it
    is rejected; the effects made before a rejection stay. *)
Inductive Settled (A : Type) :=
| Fulfilled (a : A) (w : World)
| Rejected (w : World).

Arguments Fulfilled {A} a w.
Arguments Rejected {A} w.

Definition Async (A : Type) : Type := World -> Settled A.

Definition ret {A : Type} (a : A) : Async A := fun w => Fulfilled a w.

Definition bind {A B : Type} (c : Async A) (k : A -> Async B) : Async B :=
  fun w =>
    match c w with
    | Fulfilled a w' => k a w'
    | Rejected w' => Rejected w'
    end.

Notation "x <- c ;; k" := (bind c (fun x => k))
  (at level 61, c at next level, right associativity).
Notation "c ;; k" := (bind c (fun _ => k))
  (at level 61, right associativity).

(** [try { c } catch { h }]. *)
Definition tryCatch {A : Type} (c h : Async A) : Async A :=
  fun w =>
    match c w with
    | Fulfilled a w' => Fulfilled a w'
    | Rejected w' => h w'
    end.

(** [l.forEach(f)]. *)
Fixpoint forEach {A : Type} (l : list A) (f : A -> Async unit) : Async unit :=
  match l with
  | [] => ret tt
  | x :: l' => f x ;; forEach l' f
  end.

(** [await prismaClient.chat.create({ data })]: appends the row; rejects,
    writing nothing, when the database does not answer. *)
Definition prisma_chat_create (data : Prisma.Chat) : Async unit :=
  fun w =>
    if storeUp w
    then Fulfilled tt (withChatTable (chatTable w ++ [data]) w)
    else Rejected w.

(** [await prismaClient.chat.deleteMany({ where })]: removes the rows the
    filter selects and answers their number (zero is no error). *)
Definition prisma_chat_deleteMany (where_ : Prisma.Chat -> bool) : Async nat :=
  fun w =>
    if storeUp w
    then Fulfilled (List.length (filter where_ (chatTable w)))
           (withChatTable (filter (fun row => negb (where_ row)) (chatTable w)) w)
    else Rejected w.

(** [socket.send(JSON.stringify(m))]. *)
Definition send (socket : WebSocket) (m : ServerMsg) : Async unit :=
  fun w => Fulfilled tt (withSent (sent w ++ [(sock socket, m)]) w).

(** Reading and replacing the module-level [users]. *)
Definition getUsers : Async (list User) := fun w => Fulfilled (users w) w.

Definition setUsers (us : list User) : Async unit :=
  fun w => Fulfilled tt (withUsers us w).

(** [rooms.includes(roomId)]. *)
Definition includesRoom (roomId : string) (rooms : list string) : bool :=
  existsb (String.eqb roomId) rooms.

(** [users.filter(user => user.rooms.includes(roomId))]: the members of
    a room. *)
Definition usersInRoom (roomId : string) (us : list User) : list User :=
  filter (fun user => includesRoom roomId (rooms user)) us.

(** The filter of the delete query: the text [`"id":"${shapeId}"`]. *)
Definition idPattern (shapeId : string) : string :=
  quoted "id" ++ ":" ++ quoted shapeId.

Section Handler.

(** [Number(roomId)], the room column of a row (room identifiers are the
    numeric ids the room endpoints return), and [getUserId(ws)], the
    identity resolved when the socket connected. *)
Variable Number : string -> Z.
Variable getUserId : WebSocket -> string.

(** The guarded fan-out of the chat branch
    (concurrency-deep-dive.md:93-107): the members of the room are
    computed, and each one whose socket is open is sent the message. *)
Definition broadcast (roomId : string) (m : ServerMsg) : Async unit :=
  us <- getUsers ;;
  forEach (usersInRoom roomId us) (fun user =>
    if isOPEN (readyState (ws user)) then send (ws user) m else ret tt).

(** The [chat] branch of [ws.on('message')]
    (concurrency-deep-dive.md:83-108): the row is created first, then the
    received [message] is fanned out. *)
Definition onChat (socket : WebSocket) (parsedData : ParsedData) : Async unit :=
  prisma_chat_create {| Prisma.roomId := Number (roomId parsedData);
                        Prisma.message := message parsedData;
                        Prisma.userId := getUserId socket |} ;;
  broadcast (roomId parsedData)
    (chat_msg (message parsedData) (roomId parsedData)).

(** The [delete_shape] branch (concurrency-explanation.md:626-649): the
    rows of the room whose message contains the pattern are deleted, then
    every member is sent the directive, whatever the state of its socket.
    [usersInRoom] is the same filter as in the chat branch. *)
Definition onDeleteShape (socket : WebSocket) (parsedData : ParsedData)
  : Async unit :=
  let roomId := roomId parsedData in
  let shapeId := shapeId parsedData in
  prisma_chat_deleteMany (fun row =>
    Z.eqb (Prisma.roomId row) (Number roomId)
    && includes (idPattern shapeId) (Prisma.message row)) ;;
  us <- getUsers ;;
  forEach (usersInRoom roomId us) (fun user =>
    send (ws user) (delete_shape_msg shapeId roomId)).

(** Modelled from the spec: the [clear_canvas] branch of the handler,
    which is not in the sources.  It deletes all the rows of the room
    with the query of sample-answers.md:503, then broadcasts the clear
    directive to the members; when the store fails nothing is broadcast
    and the originating connection alone gets an operation-failed
    notice. *)
Definition onClearCanvas (socket : WebSocket) (parsedData : ParsedData)
  : Async unit :=
  tryCatch
    (prisma_chat_deleteMany (fun row =>
       Z.eqb (Prisma.roomId row) (Number (roomId parsedData))) ;;
     broadcast (roomId parsedData) (clear_canvas_msg (roomId parsedData)))
    (send socket (operation_failed_msg (roomId parsedData))).

(** Modelled from the spec: [join(connection, roomId)], the [join_room]
    branch, which is not in the sources.  The room is added to the set of
    rooms of the connection; a room already joined is not added again. *)
Definition join (roomId : string) (rooms : list string) : list string :=
  if includesRoom roomId rooms then rooms else (rooms ++ [roomId])%list.

Definition updateRooms (socket : WebSocket) (f : list string -> list string)
    (user : User) : User :=
  if Nat.eqb (sock (ws user)) (sock socket)
  then {| ws := ws user; rooms := f (rooms user); userId := userId user |}
  else user.

Definition onJoinRoom (socket : WebSocket) (parsedData : ParsedData)
  : Async unit :=
  us <- getUsers ;;
  setUsers (map (updateRooms socket (join (roomId parsedData))) us).

(** Modelled from the spec: [leave(connection, roomId)], the [leave_room]
    branch, which is not in the sources.  The room is removed from the
    rooms of the connection if present. *)
Definition leave (roomId : string) (rooms : list string) : list string :=
  filter (fun r => negb (String.eqb r roomId)) rooms.

Definition onLeaveRoom (socket : WebSocket) (parsedData : ParsedData)
  : Async unit :=
  us <- getUsers ;;
  setUsers (map (updateRooms socket (leave (roomId parsedData))) us).

(** [ws.on('message', async (data) => ...)] after [JSON.parse]: the
    branch is chosen by [parsedData.type]; an unknown type does
    nothing. *)
Definition onMessage (socket : WebSocket) (parsedData : ParsedData)
  : Async unit :=
  if String.eqb (type parsedData) "join_room" then onJoinRoom socket parsedData
  else if String.eqb (type parsedData) "leave_room" then onLeaveRoom socket parsedData
  else if String.eqb (type parsedData) "chat" then onChat socket parsedData
  else if String.eqb (type parsedData) "delete_shape" then onDeleteShape socket parsedData
  else if String.eqb (type parsedData) "clear_canvas" then onClearCanvas socket parsedData
  else ret tt.

(** The row a draw writes, and the filter of a delete. *)
Definition rowOf (socket : WebSocket) (parsedData : ParsedData) : Prisma.Chat :=
  {| Prisma.roomId := Number (roomId parsedData);
     Prisma.message := message parsedData;
     Prisma.userId := getUserId socket |}.

Definition matches (parsedData : ParsedData) (row : Prisma.Chat) : bool :=
  Z.eqb (Prisma.roomId row) (Number (roomId parsedData))
  && includes (idPattern (shapeId parsedData)) (Prisma.message row).

End Handler.

(** The messages sent to one socket, and the sockets a trace touches. *)
Definition sentTo (s : nat) (tr : list (nat * ServerMsg)) : list ServerMsg :=
  map snd (filter (fun e => Nat.eqb (fst e) s) tr).

Definition targets (tr : list (nat * ServerMsg)) : list nat := map fst tr.

(** The rows of a room. *)
Definition recordsOf (room : Z) (t : list Prisma.Chat) : list Prisma.Chat :=
  filter (fun row => Z.eqb (Prisma.roomId row) room) t.

(** The transport of a socket closes: its entries of the registry now
    read a closed state. *)
Definition closeSocket (s : nat) (us : list User) : list User :=
  map (fun user =>
         if Nat.eqb (sock (ws user)) s
         then {| ws := {| sock := s; readyState := CLOSED |};
                 rooms := rooms user; userId := userId user |}
         else user) us.

(** The socket of a registry entry, the members of a room whose socket is
    open, and the sends that hand one message to each entry of a list. *)
Definition sockOf (user : User) : nat := sock (ws user).

Definition openMembers (roomId : string) (us : list User) : list User :=
  filter (fun user => isOPEN (readyState (ws user))) (usersInRoom roomId us).

Definition deliveries (m : ServerMsg) (us : list User) : list (nat * ServerMsg) :=
  map (fun user => (sockOf user, m)) us.

(** The world a settled computation leaves. *)
Definition worldOf {A : Type} (r : Settled A) : World :=
  match r with
  | Fulfilled _ w => w
  | Rejected w => w
  end.

(** The sends a computation adds to those of the world it started in. *)
Definition newSends (before after : World) : list (nat * ServerMsg) :=
  skipn (List.length (sent before)) (sent after).

End Relay.

(** ** A room with two connections, used in the examples *)

Module Scene.
Import JsString Client Relay.

(** [Number] on the decimal room identifiers of the examples. *)
Definition decimalNumber (s : string) : Z :=
  match NilZero.int_of_string s with
  | Some d => Z.of_int d
  | None => 0%Z
  end.

Definition c1 : WebSocket := {| sock := 1; readyState := OPEN |}.
Definition c2 : WebSocket := {| sock := 2; readyState := OPEN |}.

Definition identityOf (socket : WebSocket) : string :=
  if Nat.eqb (sock socket) 1 then "user_A" else "user_B".

(** Both connections registered, no room joined, an empty table. *)
Definition connected : World :=
  {| users := [ {| ws := c1; rooms := []; userId := "user_A" |};
                {| ws := c2; rooms := []; userId := "user_B" |} ];
     chatTable := [];
     storeUp := true;
     sent := [] |}.

Definition envelope (type roomId message shapeId : string) : ParsedData :=
  {| type := type; roomId := roomId; message := message; shapeId := shapeId |}.

Definition handle (socket : WebSocket) (parsedData : ParsedData) (w : World)
  : World :=
  worldOf (onMessage decimalNumber identityOf socket parsedData w).

(** Both connections have joined room 1. *)
Definition joined : World :=
  handle c2 (envelope "join_room" "1" "" "")
    (handle c1 (envelope "join_room" "1" "" "") connected).

(** The circle of concurrency-deep-dive.md:33 with a short identifier. *)
Definition circle (id : string) : Shape :=
  {| id := id; Client.type := "circle";
     geometry := [("centerX", 100%Z); ("centerY", 100%Z); ("radius", 50%Z)] |}.

Definition draw (id : string) : ParsedData :=
  envelope "chat" "1" (stringifyShape (circle id)) "".

(** The database stops answering. *)
Definition storeDown (w : World) : World :=
  {| users := users w; chatTable := chatTable w; storeUp := false; sent := sent w |}.

(** The transport of the second connection has closed. *)
Definition c2Closed (w : World) : World := withUsers (closeSocket 2 (users w)) w.

(** An identifier that continues a shorter one with the text that follows
    it in a serialized circle: the closing quote, a comma and the opening
    of the type field. *)
Definition continued (id : string) : string :=
  id ++ dquote ++ "," ++ quoted "type" ++ ":" ++ dquote ++ "circle".

Definition delete (roomId shapeId : string) : ParsedData :=
  envelope "delete_shape" roomId "" shapeId.

Definition clear : ParsedData := envelope "clear_canvas" "1" "" "".

(** The entries of the two connections once they have joined room 1, the
    entry of a third connection that has joined room 2 only, and the
    world after five draws of the first connection. *)
Definition userA : User := {| ws := c1; rooms := ["1"]; userId := "user_A" |}.
Definition userB : User := {| ws := c2; rooms := ["1"]; userId := "user_B" |}.

Definition c3 : WebSocket := {| sock := 3; readyState := OPEN |}.
Definition userC : User := {| ws := c3; rooms := ["2"]; userId := "user_B" |}.

Definition withThird (w : World) : World := withUsers (users w ++ [userC]) w.

Definition fiveDraws : World :=
  fold_left (fun w id => handle c1 (draw id) w) ["s1"; "s2"; "s3"; "s4"; "s5"] joined.

End Scene.

(** ** The listeners of the canvas *)

Module ZoomAndPan.

(** The handler properties of the class that can be registered. *)
Inductive Handler :=
| wheelHandler
| touchStartHandler
| touchMoveHandler
| touchEndHandler
| mouseDownHandler
| mouseMoveHandler
| mouseUpHandler.

Definition Handler_eqb (a b : Handler) : bool :=
  match a, b with
  | wheelHandler, wheelHandler
  | touchStartHandler, touchStartHandler
  | touchMoveHandler, touchMoveHandler
  | touchEndHandler, touchEndHandler
  | mouseDownHandler, mouseDownHandler
  | mouseMoveHandler, mouseMoveHandler
  | mouseUpHandler, mouseUpHandler => true
  | _, _ => false
  end.

(** An entry of the event listener list of an element: the event type
    and the callback (every registration here is without options). *)
Record Listener := {
  eventType : string;
  callback : Handler
}.

Definition Listener_eqb (a b : Listener) : bool :=
  String.eqb (eventType a) (eventType b) && Handler_eqb (callback a) (callback b).

(** The event listener list of the canvas element, in registration
    order. *)
Definition EventTarget := list Listener.

(** [target.addEventListener(type, callback)]: appended unless the list
    already has the same type and callback. *)
Definition addEventListener (type : string) (cb : Handler) (t : EventTarget)
  : EventTarget :=
  let l := {| eventType := type; callback := cb |} in
  if existsb (Listener_eqb l) t then t else (t ++ [l])%list.

(** [target.removeEventListener(type, callback)]: the entry with this
    type and callback is taken out; nothing happens when there is
    none. *)
Fixpoint removeEventListener (type : string) (cb : Handler) (t : EventTarget)
  : EventTarget :=
  match t with
  | [] => []
  | l :: t' =>
      if Listener_eqb {| eventType := type; callback := cb |} l
      then t'
      else l :: removeEventListener type cb t'
  end.

(** The statements of [initZoomAndPan()], in order. *)
Inductive Call :=
| Add (type : string) (cb : Handler)
| Remove (type : string) (cb : Handler).

Definition call (c : Call) (t : EventTarget) : EventTarget :=
  match c with
  | Add type cb => addEventListener type cb t
  | Remove type cb => removeEventListener type cb t
  end.

Definition calls (cs : list Call) (t : EventTarget) : EventTarget :=
  fold_left (fun t c => call c t) cs t.

Definition initZoomAndPan_body : list Call :=
  [ Add "wheel" wheelHandler;
    Add "touchstart" touchStartHandler;
    Add "touchmove" touchMoveHandler;
    Remove "touchstart" touchStartHandler;
    Remove "touchmove" touchMoveHandler;
    Remove "touchend" touchEndHandler;
    Add "touchend" touchEndHandler ].

(** [initZoomAndPan()] on the listener list of [this.canvas]. *)
Definition initZoomAndPan (canvas : EventTarget) : EventTarget :=
  calls initZoomAndPan_body canvas.

(** Dispatching an event of a type: the callbacks invoked, in order. *)
Definition dispatch (type : string) (t : EventTarget) : list Handler :=
  map callback (filter (fun l => String.eqb (eventType l) type) t).

(** The registered flag of a type and callback. *)
Definition registered (type : string) (cb : Handler) (t : EventTarget) : bool :=
  existsb (Listener_eqb {| eventType := type; callback := cb |}) t.

End ZoomAndPan.

(** ** Maps keyed by strings *)

Module JsMap.

Section Map.

Context {V : Type}.

(** A [Map] with string keys: its entries in insertion order, one entry per
    key. *)
Definition t : Type := list (string * V).

Definition empty : t := [].

(** [m.get(k)]; [None] is [undefined]. *)
Fixpoint get (k : string) (m : t) : option V :=
  match m with
  | [] => None
  | (k', v) :: m' => if String.eqb k' k then Some v else get k m'
  end.

(** [m.has(k)]. *)
Definition has (k : string) (m : t) : bool :=
  match get k m with
  | Some _ => true
  | None => false
  end.

(** [m.set(k, v)]: the value of an existing key is replaced where it
    stands, a new key goes to the end. *)
Fixpoint set (k : string) (v : V) (m : t) : t :=
  match m with
  | [] => [(k, v)]
  | (k', v') :: m' =>
      if String.eqb k' k then (k, v) :: m' else (k', v') :: set k v m'
  end.

(** [m.delete(k)]. *)
Definition delete (k : string) (m : t) : t :=
  filter (fun e => negb (String.eqb (fst e) k)) m.

(** [m.keys()] and [m.values()]. *)
Definition keys (m : t) : list string := map fst m.

Definition values (m : t) : list V := map snd m.

End Map.

Arguments t V : clear implicits.

End JsMap.

(** ** The in-memory cache of room shapes *)

Module RoomCache.

(** The value kept for a room. *)
Record Entry := {
  shapes : list Client.Shape;
  lastUpdate : Z
}.

(** [TTL = 5 * 60 * 1000], in milliseconds. *)
Definition TTL : Z := 5 * 60 * 1000.

(** [get(roomId)], with the reading [now] of [Date.now()]: a missing or
    stale entry is deleted and [null] is answered, otherwise the shapes of
    the entry.  The second component is the map after the call. *)
Definition get (now : Z) (roomId : string) (cache : JsMap.t Entry)
  : option (list Client.Shape) * JsMap.t Entry :=
  match JsMap.get roomId cache with
  | None => (None, JsMap.delete roomId cache)
  | Some entry =>
      if Z.gtb (now - lastUpdate entry) TTL
      then (None, JsMap.delete roomId cache)
      else (Some (shapes entry), cache)
  end.

(** [set(roomId, shapes)], with the reading [now] of [Date.now()]. *)
Definition set (now : Z) (roomId : string) (shapes : list Client.Shape)
    (cache : JsMap.t Entry) : JsMap.t Entry :=
  JsMap.set roomId {| shapes := shapes; lastUpdate := now |} cache.

End RoomCache.

(** ** The rate limiter *)

Module RateLimit.

(** The value kept for a key of [rateLimiter]. *)
Record Limit := {
  count : Z;
  resetTime : Z
}.

Definition windowMs : Z := 60000.
Definition maxRequests : Z := 100.

(** [`${userId}:${action}`]. *)
Definition keyOf (userId action : string) : string :=
  userId ++ ":" ++ action.

(** [checkRateLimit] answers [true] or throws. *)
Inductive Outcome := Allowed | RateLimitExceeded.

(** [checkRateLimit(userId, action)], with the reading [now] of
    [Date.now()]; the second component is [rateLimiter] after the call. *)
Definition checkRateLimit (now : Z) (userId action : string)
    (rateLimiter : JsMap.t Limit) : Outcome * JsMap.t Limit :=
  let key := keyOf userId action in
  match JsMap.get key rateLimiter with
  | None =>
      (Allowed,
       JsMap.set key {| count := 1; resetTime := now + windowMs |} rateLimiter)
  | Some limit =>
      if Z.gtb now (resetTime limit) then
        (Allowed,
         JsMap.set key {| count := 1; resetTime := now + windowMs |} rateLimiter)
      else if Z.geb (count limit) maxRequests then
        (RateLimitExceeded, rateLimiter)
      else
        (Allowed,
         JsMap.set key {| count := count limit + 1;
                          resetTime := resetTime limit |} rateLimiter)
  end.

(** The calls of one user for one action at the given clock readings, in
    order: their outcomes and the limiter they leave. *)
Fixpoint requests (times : list Z) (userId action : string)
    (rateLimiter : JsMap.t Limit) : list Outcome * JsMap.t Limit :=
  match times with
  | [] => ([], rateLimiter)
  | now :: times' =>
      let (o, rl) := checkRateLimit now userId action rateLimiter in
      let (os, rl') := requests times' userId action rl in
      (o :: os, rl')
  end.

End RateLimit.

(** ** Lists *)

Module Lists.

(** [a] is [b] with some elements left out, the order kept. *)
Inductive Subsequence {A : Type} : list A -> list A -> Prop :=
| sub_nil : Subsequence [] []
| sub_keep (x : A) (a b : list A) :
    Subsequence a b -> Subsequence (x :: a) (x :: b)
| sub_drop (x : A) (a b : list A) :
    Subsequence a b -> Subsequence a (x :: b).

End Lists.

(** ** Input sanitization *)

Module Sanitize.
Import Lists.

(** A string as the language has it: its UTF-16 code units. *)
Definition jsstring : Type := list N.

(** White space and line terminators, the code units [trim] strips. *)
Definition isWhiteSpace (c : N) : bool :=
  existsb (N.eqb c)
    [ 9; 10; 11; 12; 13; 32; 160; 5760; 8232; 8233; 8239; 8287; 12288; 65279 ]%N
  || (N.leb 8192 c && N.leb c 8202).

Fixpoint trimStart (s : jsstring) : jsstring :=
  match s with
  | [] => []
  | c :: s' => if isWhiteSpace c then trimStart s' else s
  end.

Definition trimEnd (s : jsstring) : jsstring := rev (trimStart (rev s)).

(** [s.trim()]. *)
Definition trim (s : jsstring) : jsstring := trimEnd (trimStart s).

(** The class [[<>]]. *)
Definition isAngle (c : N) : bool := N.eqb c 60 || N.eqb c 62.

(** [s.replace(/[<>]/g, '')]. *)
Definition removeAngles (s : jsstring) : jsstring :=
  filter (fun c => negb (isAngle c)) s.

(** [s.substring(0, n)]. *)
Definition substring0 (n : nat) (s : jsstring) : jsstring := firstn n s.

(** [sanitizeInput(input)]. *)
Definition sanitizeInput (input : jsstring) : jsstring :=
  substring0 1000 (removeAngles (trim input)).

(** The text has no white space at either end. *)
Definition trimmed (s : jsstring) : Prop :=
  match s with
  | [] => True
  | c :: _ => isWhiteSpace c = false /\ isWhiteSpace (last s c) = false
  end.

End Sanitize.

(** ** Merging replicated shapes *)

Module Crdt.

(** [CRDTShape]; the versions are whole numbers. *)
Record CRDTShape := {
  id : string;
  type : string;
  position : Z * Z;
  version : Z;
  tombstone : bool
}.

(** The body of the [forEach] of [mergeShapes]: the shape is recorded when
    its identifier is new or its version is greater than the recorded
    one. *)
Definition mergeStep (merged : JsMap.t CRDTShape) (shape : CRDTShape)
  : JsMap.t CRDTShape :=
  match JsMap.get (id shape) merged with
  | None => JsMap.set (id shape) shape merged
  | Some existing =>
      if Z.gtb (version shape) (version existing)
      then JsMap.set (id shape) shape merged
      else merged
  end.

(** The map [merged] after the loop over [[...local, ...remote]]. *)
Definition mergedMap (local remote : list CRDTShape) : JsMap.t CRDTShape :=
  fold_left mergeStep (local ++ remote) JsMap.empty.

(** [mergeShapes(local, remote)]. *)
Definition mergeShapes (local remote : list CRDTShape) : list CRDTShape :=
  filter (fun shape => negb (tombstone shape))
         (JsMap.values (mergedMap local remote)).

(** What the map holds after the shapes [seen] went through the loop: one
    entry per key, each shape under its own identifier and taken from
    [seen], and for every shape seen an entry at least as new. *)
Definition Merged (m : JsMap.t CRDTShape) (seen : list CRDTShape) : Prop :=
  NoDup (JsMap.keys m) /\
  (forall k v, JsMap.get k m = Some v -> id v = k /\ In v seen) /\
  (forall s, In s seen ->
     exists v, JsMap.get (id s) m = Some v /\ (version s <= version v)%Z).

End Crdt.

(** ** Resolving a log of drawing events *)

Module EventSourcing.

Local Open Scope list_scope.

Inductive EventType := SHAPE_ADDED | SHAPE_DELETED | SHAPE_MODIFIED.

(** [DrawingEvent]; [shapeId] is [eventData.shapeId] and [timestamp] the
    milliseconds of [timestamp.getTime()]. *)
Record DrawingEvent := {
  id : string;
  roomId : string;
  userId : string;
  eventType : EventType;
  shapeId : string;
  timestamp : Z;
  version : Z;
  parentVersion : option Z
}.

(** [events.sort((a, b) => a.timestamp.getTime() - b.timestamp.getTime())]:
    the sort is stable, so an event goes behind the events that came before
    it with the same or a smaller time. *)
Fixpoint insert (event : DrawingEvent) (sorted : list DrawingEvent)
  : list DrawingEvent :=
  match sorted with
  | [] => [event]
  | x :: rest =>
      if Z.ltb (timestamp event) (timestamp x)
      then event :: sorted
      else x :: insert event rest
  end.

Definition sortByTimestamp (events : list DrawingEvent) : list DrawingEvent :=
  fold_left (fun sorted event => insert event sorted) events [].

(** The body of the [forEach]: [resolved] and [shapeStates] after one
    event. *)
Definition resolveStep
    (state : list DrawingEvent * JsMap.t DrawingEvent) (event : DrawingEvent)
  : list DrawingEvent * JsMap.t DrawingEvent :=
  let (resolved, shapeStates) := state in
  match eventType event with
  | SHAPE_ADDED =>
      (resolved ++ [event], JsMap.set (shapeId event) event shapeStates)
  | SHAPE_DELETED =>
      if JsMap.has (shapeId event) shapeStates
      then (resolved ++ [event], JsMap.delete (shapeId event) shapeStates)
      else state
  | SHAPE_MODIFIED => state
  end.

(** [resolveConflicts(events)]; the array passed in is left sorted. *)
Definition resolveConflicts (events : list DrawingEvent) : list DrawingEvent :=
  fst (fold_left resolveStep (sortByTimestamp events) ([], JsMap.empty)).

(** Replaying a log on the set of live shape identifiers: an addition makes
    the shape live, a deletion needs a live shape and ends it, a
    modification needs a live shape; [None] when an event finds no live
    shape. *)
Definition replayStep (live : option (list string)) (event : DrawingEvent)
  : option (list string) :=
  match live with
  | None => None
  | Some ids =>
      match eventType event with
      | SHAPE_ADDED => Some (shapeId event :: ids)
      | SHAPE_DELETED =>
          if existsb (String.eqb (shapeId event)) ids
          then Some (filter (fun i => negb (String.eqb i (shapeId event))) ids)
          else None
      | SHAPE_MODIFIED =>
          if existsb (String.eqb (shapeId event)) ids then Some ids else None
      end
  end.

Definition replay (log : list DrawingEvent) : option (list string) :=
  fold_left replayStep log (Some []).

Definition isAdded (event : DrawingEvent) : bool :=
  match eventType event with SHAPE_ADDED => true | _ => false end.

Definition isModified (event : DrawingEvent) : bool :=
  match eventType event with SHAPE_MODIFIED => true | _ => false end.

(** Times that do not decrease along the list. *)
Fixpoint ascending (events : list DrawingEvent) : Prop :=
  match events with
  | [] => True
  | x :: rest =>
      Forall (fun y => (timestamp x <= timestamp y)%Z) rest /\ ascending rest
  end.

(** The keys of [shapeStates] are the live shapes of the replay of
    [resolved]. *)
Definition Live (state : list DrawingEvent * JsMap.t DrawingEvent) : Prop :=
  exists ids : list string,
    replay (fst state) = Some ids /\
    forall k, JsMap.has k (snd state) = true <-> In k ids.

End EventSourcing.

(** ** Batched writes *)

Module Batch.
Import Relay.

Local Open Scope list_scope.

(** An entry of [batchShapes]. *)
Record Item := {
  roomId : Z;
  data : Client.Shape;
  userId : string
}.

(** The row [processBatch] makes of an entry. *)
Definition rowOf (shape : Item) : Prisma.Chat :=
  {| Prisma.roomId := roomId shape;
     Prisma.message := Client.stringifyShape (data shape);
     Prisma.userId := userId shape |}.

(** [await prismaClient.chat.createMany({ data })]: appends the rows in
    order and answers their number; rejects, writing nothing, when the
    database does not answer. *)
Definition prisma_chat_createMany (data : list Prisma.Chat) : Async nat :=
  fun w =>
    if storeUp w
    then Fulfilled (List.length data) (withChatTable (chatTable w ++ data) w)
    else Rejected w.

(** [processBatch()] on the module-level array [batchShapes].  The rows
    are built from the array before the insert is awaited; [arrivals] are
    the entries other handlers push onto the array while the insert is in
    flight; when the insert is fulfilled the array is emptied
    ([batchShapes.length = 0]).  The first component is the array after the
    call. *)
Definition processBatch (batchShapes arrivals : list Item) (w : World)
  : list Item * Settled unit :=
  match batchShapes with
  | [] => ([], Fulfilled tt w)
  | _ :: _ =>
      match prisma_chat_createMany (map rowOf batchShapes) w with
      | Fulfilled _ w' => ([], Fulfilled tt w')
      | Rejected w' => (batchShapes ++ arrivals, Rejected w')
      end
  end.

End Batch.

(** ** Query metrics *)

Module Metrics.

(** The counters of [DatabaseMetrics]. *)
Record Counters := {
  queryCount : Z;
  queryTime : Z;
  connectionCount : Z;
  errorCount : Z
}.

Definition initial : Counters :=
  {| queryCount := 0; queryTime := 0; connectionCount := 0; errorCount := 0 |}.

(** [recordQuery(duration)]. *)
Definition recordQuery (duration : Z) (metrics : Counters) : Counters :=
  {| queryCount := queryCount metrics + 1;
     queryTime := queryTime metrics + duration;
     connectionCount := connectionCount metrics;
     errorCount := errorCount metrics |}.

(** [recordError()]. *)
Definition recordError (metrics : Counters) : Counters :=
  {| queryCount := queryCount metrics;
     queryTime := queryTime metrics;
     connectionCount := connectionCount metrics;
     errorCount := errorCount metrics + 1 |}.

(** How a query settles: with a result, or with an error. *)
Inductive Settles (R E : Type) :=
| Returns (result : R)
| Throws (error : E).

Arguments Returns {R E} result.
Arguments Throws {R E} error.

(** One run of a query: the readings of [Date.now()] before and after it
    and the way it settles. *)
Record Run (R E : Type) := {
  start : Z;
  finish : Z;
  outcome : Settles R E
}.

Arguments start {R E} r.
Arguments finish {R E} r.
Arguments outcome {R E} r.

(** [monitoredQuery(query)]: a result is recorded with its duration and
    returned, an error is counted and thrown again. *)
Definition monitoredQuery {R E : Type} (run : Run R E) (metrics : Counters)
  : Settles R E * Counters :=
  match outcome run with
  | Returns result =>
      (Returns result, recordQuery (finish run - start run) metrics)
  | Throws error => (Throws error, recordError metrics)
  end.

(** Monitored queries one after the other. *)
Definition monitoredQueries {R E : Type} (runs : list (Run R E))
    (metrics : Counters) : Counters :=
  fold_left (fun m run => snd (monitoredQuery run m)) runs metrics.

Definition returned {R E : Type} (run : Run R E) : bool :=
  match outcome run with Returns _ => true | Throws _ => false end.

(** The time spent in the runs that returned. *)
Definition timeReturned {R E : Type} (runs : list (Run R E)) : Z :=
  fold_right (fun run total => (finish run - start run + total)%Z) 0%Z
             (filter returned runs).

End Metrics.

(** ** Messages handled one after the other *)

Module RelayRuns.
Import Relay.

Section Handler.

Variable Number : string -> Z.
Variable getUserId : WebSocket -> string.

(** The handler run on each received message in turn, each run starting
    in the world the one before left. *)
Definition handleAll (received : list (WebSocket * ParsedData)) (w : World)
  : World :=
  fold_left
    (fun w m => worldOf (onMessage Number getUserId (fst m) (snd m) w))
    received w.

End Handler.

(** The sends of one chat message over a registry. *)
Definition chatSends (us : list User) (m : WebSocket * ParsedData)
  : list (nat * ServerMsg) :=
  deliveries (chat_msg (message (snd m)) (roomId (snd m)))
             (openMembers (roomId (snd m)) us).

(** A text that [JSON.stringify] writes between quotes as it is. *)
Definition plain (s : string) : Prop := JsString.stringifyBody s = s.

End RelayRuns.

(** ** The touch entries of the canvas *)

Module TouchEntries.
Import ZoomAndPan.

Definition touchStartEntry : Listener :=
  {| eventType := "touchstart"; callback := touchStartHandler |}.
Definition touchMoveEntry : Listener :=
  {| eventType := "touchmove"; callback := touchMoveHandler |}.
Definition touchEndEntry : Listener :=
  {| eventType := "touchend"; callback := touchEndHandler |}.

(** One of the three touch entries [initZoomAndPan] adds and removes. *)
Definition isTouchEntry (l : Listener) : bool :=
  Listener_eqb touchStartEntry l
  || Listener_eqb touchMoveEntry l
  || Listener_eqb touchEndEntry l.

End TouchEntries.

(** ** The touch handlers of the canvas *)

Module Touch.
Import ZoomAndPan.

Local Open Scope list_scope.

Section Numbers.

(** The numbers of the language and the operations the handlers use on
    them, taken as they are: [0], [2], [0.1], [5], the arithmetic,
    [Math.max], [Math.min], [Math.pow], [Math.sqrt], [>] and [!==]. *)
Variable number : Type.
Variables zero two tenth five : number.
Variables add sub mul div max min pow : number -> number -> number.
Variable sqrt : number -> number.
Variables gt neq : number -> number -> bool.

(** An entry of [e.touches], and a touch event. *)
Record TouchPoint := {
  clientX : number;
  clientY : number
}.

Record TouchEvent := {
  touches : list TouchPoint
}.

(** The fields of the class the handlers read and write. *)
Record Game := {
  scale : number;
  offsetX : number;
  offsetY : number;
  lastTouchDistance : number;
  touchStartTime : Z;
  touchStartPos : number * number
}.

(** What a handler does besides updating the fields: [e.preventDefault()],
    the synthesized mouse event it hands to [mouseDownHandler],
    [mouseMoveHandler] or [mouseUpHandler] (with its [clientX] and
    [clientY]; the button is 0), and [clearCanvas()]. *)
Inductive Effect :=
| PreventDefault
| MouseDown (x y : number)
| MouseMove (x y : number)
| MouseUp (x y : number)
| ClearCanvas.

(** The distance of two touches:
    [Math.sqrt(Math.pow(x2 - x1, 2) + Math.pow(y2 - y1, 2))]. *)
Definition distance (touch1 touch2 : TouchPoint) : number :=
  sqrt (add (pow (sub (clientX touch2) (clientX touch1)) two)
            (pow (sub (clientY touch2) (clientY touch1)) two)).

(** [touchStartHandler(e)], with the reading [now] of [Date.now()]. *)
Definition touchStart (now : Z) (e : TouchEvent) (g : Game)
  : Game * list Effect :=
  match touches e with
  | [touch] =>
      ({| scale := scale g; offsetX := offsetX g; offsetY := offsetY g;
          lastTouchDistance := lastTouchDistance g;
          touchStartTime := now;
          touchStartPos := (clientX touch, clientY touch) |},
       [PreventDefault; MouseDown (clientX touch) (clientY touch)])
  | [touch1; touch2] =>
      ({| scale := scale g; offsetX := offsetX g; offsetY := offsetY g;
          lastTouchDistance := distance touch1 touch2;
          touchStartTime := now;
          touchStartPos := touchStartPos g |},
       [PreventDefault])
  | _ =>
      ({| scale := scale g; offsetX := offsetX g; offsetY := offsetY g;
          lastTouchDistance := lastTouchDistance g;
          touchStartTime := now;
          touchStartPos := touchStartPos g |},
       [PreventDefault])
  end.

(** [touchMoveHandler(e)]. *)
Definition touchMove (e : TouchEvent) (g : Game) : Game * list Effect :=
  match touches e with
  | [touch] =>
      (g, [PreventDefault; MouseMove (clientX touch) (clientY touch)])
  | [touch1; touch2] =>
      let currentDistance := distance touch1 touch2 in
      let zoomed :=
        if gt (lastTouchDistance g) zero then
          let ratio := div currentDistance (lastTouchDistance g) in
          let centerX := div (add (clientX touch1) (clientX touch2)) two in
          let centerY := div (add (clientY touch1) (clientY touch2)) two in
          let newScale := max tenth (min five (mul (scale g) ratio)) in
          if neq newScale (scale g) then
            ({| scale := newScale;
                offsetX := sub centerX (mul (sub centerX (offsetX g))
                                            (div newScale (scale g)));
                offsetY := sub centerY (mul (sub centerY (offsetY g))
                                            (div newScale (scale g)));
                lastTouchDistance := lastTouchDistance g;
                touchStartTime := touchStartTime g;
                touchStartPos := touchStartPos g |},
             [ClearCanvas])
          else (g, [])
        else (g, []) in
      ({| scale := scale (fst zoomed);
          offsetX := offsetX (fst zoomed);
          offsetY := offsetY (fst zoomed);
          lastTouchDistance := currentDistance;
          touchStartTime := touchStartTime (fst zoomed);
          touchStartPos := touchStartPos (fst zoomed) |},
       PreventDefault :: snd zoomed)
  | _ => (g, [PreventDefault])
  end.

(** [touchEndHandler(e)]. *)
Definition touchEnd (e : TouchEvent) (g : Game) : Game * list Effect :=
  ({| scale := scale g; offsetX := offsetX g; offsetY := offsetY g;
      lastTouchDistance := zero;
      touchStartTime := touchStartTime g;
      touchStartPos := touchStartPos g |},
   PreventDefault ::
   match touches e with
   | [] => [MouseUp (fst (touchStartPos g)) (snd (touchStartPos g))]
   | _ :: _ => []
   end).

(** The handlers whose bodies are elsewhere, on a touch event. *)
Variable otherHandler : Handler -> TouchEvent -> Game -> Game * list Effect.

(** A callback of the listener list invoked with a touch event. *)
Definition invoke (h : Handler) (now : Z) (e : TouchEvent) (g : Game)
  : Game * list Effect :=
  match h with
  | touchStartHandler => touchStart now e g
  | touchMoveHandler => touchMove e g
  | touchEndHandler => touchEnd e g
  | _ => otherHandler h e g
  end.

(** A touch event of a type arriving at the canvas: the callbacks
    registered for the type run in order. *)
Definition fire (type : string) (now : Z) (e : TouchEvent)
    (canvas : EventTarget) (g : Game) : Game * list Effect :=
  fold_left
    (fun acc h =>
       let (g', effects) := invoke h now e (fst acc) in
       (g', snd acc ++ effects))
    (dispatch type canvas) (g, []).

(** Touch events arriving one after the other: type, clock reading and
    event. *)
Definition fireAll (events : list (string * Z * TouchEvent))
    (canvas : EventTarget) (g : Game) : Game * list Effect :=
  fold_left
    (fun acc ev =>
       let (g', effects) :=
         fire (fst (fst ev)) (snd (fst ev)) (snd ev) canvas (fst acc) in
       (g', snd acc ++ effects))
    events (g, []).

(** What a touch event still does on a canvas where only the touchend
    handler is registered. *)
Definition endOnly (g : Game) (ev : string * Z * TouchEvent) : list Effect :=
  if String.eqb (fst (fst ev)) "touchend" then
    PreventDefault ::
    match touches (snd ev) with
    | [] => [MouseUp (fst (touchStartPos g)) (snd (touchStartPos g))]
    | _ :: _ => []
    end
  else [].

(** Handler calls one after the other, each on the fields the one before
    left; the effects in order. *)
Definition run (steps : list (Game -> Game * list Effect)) (g : Game)
  : Game * list Effect :=
  fold_left
    (fun (acc : Game * list Effect) (step : Game -> Game * list Effect) =>
       let (g', effects) := step (fst acc) in (g', snd acc ++ effects))
    steps (g, []).

End Numbers.

Arguments clientX {number} t.
Arguments clientY {number} t.
Arguments touches {number} t.
Arguments scale {number} g.
Arguments offsetX {number} g.
Arguments offsetY {number} g.
Arguments lastTouchDistance {number} g.
Arguments touchStartTime {number} g.
Arguments touchStartPos {number} g.
Arguments PreventDefault {number}.
Arguments MouseDown {number} x y.
Arguments MouseMove {number} x y.
Arguments MouseUp {number} x y.
Arguments ClearCanvas {number}.
Arguments endOnly {number} g ev.
Arguments run {number} steps g.

(** The event type is one of the three touch types. *)
Definition isTouchType (type : string) : bool :=
  String.eqb type "touchstart" || String.eqb type "touchmove"
  || String.eqb type "touchend".

End Touch.

(** ** Shape validation *)

Module Validation.

Local Open Scope list_scope.

(** The values of the language [validateShape] can meet in the properties
    it reads. *)
Inductive JsValue :=
| JsUndefined
| JsNull
| JsBoolean (b : bool)
| JsNumber (n : Z)
| JsString (s : string)
| JsObject.

(** [typeof v === 'number']. *)
Definition isNumber (v : JsValue) : bool :=
  match v with JsNumber _ => true | _ => false end.

(** [object.key]; a missing property reads [undefined]. *)
Definition property (key : string) (object : JsMap.t JsValue) : JsValue :=
  match JsMap.get key object with
  | Some v => v
  | None => JsUndefined
  end.

Definition allowedTypes : list string := ["circle"; "rect"; "pencil"; "text"].

(** [allowedTypes.includes(v)]. *)
Definition isAllowedType (v : JsValue) : bool :=
  match v with
  | JsString s => existsb (String.eqb s) allowedTypes
  | _ => false
  end.

(** [validateShape] answers [true] or throws one of its two errors. *)
Inductive Verdict := Valid | InvalidShapeType | InvalidCoordinates.

(** [validateShape(shape)]. *)
Definition validateShape (shape : JsMap.t JsValue) : Verdict :=
  if negb (isAllowedType (property "type" shape)) then InvalidShapeType
  else if negb (isNumber (property "x" shape))
          || negb (isNumber (property "y" shape))
       then InvalidCoordinates
       else Valid.

(** The object a client shape is, [{ id, type, ...geometry }]: a later
    property of a name replaces an earlier one. *)
Definition objectOf (shape : Client.Shape) : JsMap.t JsValue :=
  fold_left
    (fun object field => JsMap.set (fst field) (JsNumber (snd field)) object)
    (Client.geometry shape)
    [ ("id", JsString (Client.id shape));
      ("type", JsString (Client.type shape)) ].

(** The geometry has a field of this name. *)
Definition hasField (key : string) (shape : Client.Shape) : bool :=
  existsb (fun field => String.eqb (fst field) key) (Client.geometry shape).

End Validation.

(** ** Texts inside a serialized shape *)

Module JsonText.
Import JsString Client.







End JsonText.

(** ** The process that runs the handler *)

Module Server.
Import Relay.

(** The relay process: it runs, holding the registry, the table and the
    sockets, or it has exited; the world it held when it exited is kept
    for the record of what had been sent. *)
Inductive Process :=
| Running (w : World)
| Exited (w : World).

Section Handler.

Variable Number : string -> Z.
Variable getUserId : WebSocket -> string.

(** A message event on a socket, [ws.on('message', async (data) => ...)]
    (concurrency-deep-dive.md:80): the emitter calls the listener and
    drops the promise it returns.  The listener has no [try]/[catch] and
    nothing in the sources handles a rejection, so a rejected promise is
    an unhandled rejection, on which the process exits.  A process that
    has exited handles no further message. *)
Definition emitMessage (socket : WebSocket) (parsedData : ParsedData)
    (p : Process) : Process :=
  match p with
  | Exited w => Exited w
  | Running w =>
      match onMessage Number getUserId socket parsedData w with
      | Fulfilled _ w' => Running w'
      | Rejected w' => Exited w'
      end
  end.

End Handler.

Definition running (p : Process) : bool :=
  match p with
  | Running _ => true
  | Exited _ => false
  end.

(** The sockets the process holds open: those of the registry whose state
    is open while it runs, none once it has exited. *)
Definition connections (p : Process) : list nat :=
  match p with
  | Running w =>
      map sockOf (filter (fun user => isOPEN (readyState (ws user))) (users w))
  | Exited _ => []
  end.

(** The calls of [ws.send] the process has made. *)
Definition sentBy (p : Process) : list (nat * ServerMsg) :=
  match p with
  | Running w => sent w
  | Exited w => sent w
  end.

End Server.

Module JsStringFacts.
Import JsString.

Lemma startsWith_spec (p s : string) :
  startsWith p s = true <-> exists post : string, s = p ++ post.
Proof.
  revert s; induction p as [|a p IH]; intros s; simpl.
  - split; [intros _; now exists s | reflexivity].
  - destruct s as [|b s].
    + split; [discriminate | intros [post H]; discriminate].
    + rewrite andb_true_iff, Ascii.eqb_eq, IH. split.
      * intros [-> [post ->]]. now exists post.
      * intros [post H]. inversion H; subst. split; [reflexivity | now exists post].
Qed.

(** [includes p s] holds exactly when [s] is some text, then [p], then
    some text. *)
Lemma includes_spec (p s : string) :
  includes p s = true <-> exists pre post : string, s = pre ++ p ++ post.
Proof.
  induction s as [|c s IH].
  - simpl. rewrite orb_false_r, startsWith_spec. split.
    + intros [post H]. now exists EmptyString, post.
    + intros [[|a pre] [post H]]; [now exists post | discriminate].
  - change (includes p (String c s))
      with (startsWith p (String c s) || includes p s).
    rewrite orb_true_iff, startsWith_spec, IH. split.
    + intros [[post H] | [pre [post H]]].
      * now exists EmptyString, post.
      * exists (String c pre), post. simpl. now rewrite H.
    + intros [[|a pre] [post H]].
      * left. now exists post.
      * right. inversion H; subst. now exists pre, post.
Qed.

End JsStringFacts.

Module ShapeIdFacts.
Import JsString ShapeId.

Example generateShapeId_typical :
  generateShapeId 1641234567890 "0.k2j8h3m9xq1" = "shape_1641234567890_k2j8h3m9x".
Proof. reflexivity. Qed.

Example generateShapeId_half :
  generateShapeId 1641234567890 "0.i" = "shape_1641234567890_i".
Proof. reflexivity. Qed.

Lemma substr_0_length (len : nat) (s : string) :
  String.length (substr 0 len s) = Nat.min len (String.length s).
Proof.
  revert len; induction s as [|c s IH]; intros [|len]; simpl; auto.
Qed.

Lemma substr_length (start len : nat) (s : string) :
  String.length (substr start len s) = Nat.min len (String.length s - start).
Proof.
  revert start; induction s as [|c s IH]; intros [|start].
  - destruct len; reflexivity.
  - simpl. now rewrite Nat.min_0_r.
  - rewrite Nat.sub_0_r. apply substr_0_length.
  - simpl. apply IH.
Qed.

Lemma substr_0_chars (len : nat) (s : string) (P : ascii -> Prop) :
  Forall P (chars s) -> Forall P (chars (substr 0 len s)).
Proof.
  revert len; induction s as [|c s IH]; intros [|len] H; simpl;
    try constructor.
  - now inversion H.
  - apply IH. now inversion H.
Qed.

Lemma substr_chars (start len : nat) (s : string) (P : ascii -> Prop) :
  Forall P (chars s) -> Forall P (chars (substr start len s)).
Proof.
  revert start; induction s as [|c s IH]; intros [|start] H.
  - destruct len; constructor.
  - constructor.
  - now apply substr_0_chars.
  - simpl. apply IH. now inversion H.
Qed.

End ShapeIdFacts.

Module ShapeIdTheorems.
Import JsString ShapeId ShapeIdFacts.

(** C9, as stated, fails: two calls at the same clock reading, one drawing
    one half (rendered "0.i") and one drawing a number with a long
    rendering, return identifiers whose random suffixes have one and nine
    characters. *)
Lemma generateShapeId_suffix_length_differs :
  generateShapeId 1641234567890 "0.i" = "shape_1641234567890_" ++ "i" /\
  generateShapeId 1641234567890 "0.k2j8h3m9xq1"
    = "shape_1641234567890_" ++ "k2j8h3m9x" /\
  String.length (randomSuffix "0.i")
    <> String.length (randomSuffix "0.k2j8h3m9xq1") /\
  ~ (forall rnd1 rnd2 : string,
       String.length (randomSuffix rnd1) = String.length (randomSuffix rnd2)).
Proof.
  repeat split; try reflexivity.
  - simpl; lia.
  - intros H. specialize (H "0.i" "0.k2j8h3m9xq1"). simpl in H. lia.
Qed.

(** C9, amended: every identifier is the text shape_, the decimal clock
    reading in milliseconds, an underscore and a random suffix; the suffix
    is what follows the first two characters of the base-36 rendering, cut
    at nine characters, so it has at most nine characters, exactly nine when
    the rendering has eleven or more, and it is alphanumeric when the
    rendering is "0." followed by base-36 digits. *)
Theorem generateShapeId_format (now : Z) (rnd36 : string) :
  generateShapeId now rnd36 = "shape_" ++ ofZ now ++ "_" ++ randomSuffix rnd36 /\
  String.length (randomSuffix rnd36) = Nat.min 9 (String.length rnd36 - 2) /\
  String.length (randomSuffix rnd36) <= 9 /\
  (11 <= String.length rnd36 -> String.length (randomSuffix rnd36) = 9) /\
  (forall digits : string,
      rnd36 = "0." ++ digits ->
      Forall (fun c => isBase36 c = true) (chars digits) ->
      Forall (fun c => isBase36 c = true) (chars (randomSuffix rnd36))).
Proof.
  unfold randomSuffix.
  pose proof (substr_length 2 9 rnd36) as L.
  repeat split.
  - exact L.
  - lia.
  - lia.
  - intros digits -> Hd. change (substr 2 9 ("0." ++ digits)) with (substr 0 9 digits).
    now apply substr_0_chars.
Qed.

Lemma generateShapeId_format_witness :
  String.length (randomSuffix "0.k2j8h3m9xq1") = 9 /\
  Forall (fun c => isBase36 c = true) (chars (randomSuffix "0.i")).
Proof.
  split.
  - apply (generateShapeId_format 1641234567890 "0.k2j8h3m9xq1"). simpl; lia.
  - apply (generateShapeId_format 1641234567890 "0.i") with (digits := "i").
    + reflexivity.
    + repeat constructor.
Defined.

End ShapeIdTheorems.

Module ZoomAndPanFacts.
Import ZoomAndPan.

Lemma Handler_eqb_eq (a b : Handler) : Handler_eqb a b = true <-> a = b.
Proof. destruct a, b; simpl; split; intros H; congruence. Qed.

Lemma Listener_eqb_eq (a b : Listener) : Listener_eqb a b = true <-> a = b.
Proof.
  destruct a as [ta ca], b as [tb cb]; unfold Listener_eqb; simpl.
  rewrite andb_true_iff, String.eqb_eq, Handler_eqb_eq.
  split; [intros [-> ->]; reflexivity | intros H; inversion H; auto].
Qed.

Lemma registered_In (type : string) (cb : Handler) (t : EventTarget) :
  registered type cb t = true <-> In {| eventType := type; callback := cb |} t.
Proof.
  unfold registered. rewrite existsb_exists. split.
  - intros [l [Hin He]]. apply Listener_eqb_eq in He. now subst.
  - intros H. eexists; split; [exact H | now apply Listener_eqb_eq].
Qed.

Lemma In_add (type : string) (cb : Handler) (t : EventTarget) (l : Listener) :
  In l (addEventListener type cb t)
  <-> l = {| eventType := type; callback := cb |} \/ In l t.
Proof.
  unfold addEventListener.
  destruct (existsb _ t) eqn:E.
  - split; [now right | intros [-> | H]; auto].
    apply existsb_exists in E. destruct E as [l' [Hin He]].
    apply Listener_eqb_eq in He. now subst.
  - rewrite in_app_iff. simpl. intuition congruence.
Qed.

Lemma NoDup_add (type : string) (cb : Handler) (t : EventTarget) :
  NoDup t -> NoDup (addEventListener type cb t).
Proof.
  intros H. unfold addEventListener.
  destruct (existsb _ t) eqn:E; auto.
  apply NoDup_app; auto.
  - repeat constructor. intros [].
  - intros l Hin [<- | []].
    assert (existsb (Listener_eqb {| eventType := type; callback := cb |}) t = true)
      by (apply existsb_exists; eexists; split; [exact Hin | now apply Listener_eqb_eq]).
    congruence.
Qed.

Lemma In_remove (type : string) (cb : Handler) (t : EventTarget) (l : Listener) :
  In l (removeEventListener type cb t) -> In l t.
Proof.
  induction t as [|x t IH]; simpl; auto.
  destruct (Listener_eqb _ x); simpl; intuition.
Qed.

Lemma In_remove_other (type : string) (cb : Handler) (t : EventTarget)
    (l : Listener) :
  l <> {| eventType := type; callback := cb |} ->
  In l t -> In l (removeEventListener type cb t).
Proof.
  intros Hne. induction t as [|x t IH]; simpl; auto.
  destruct (Listener_eqb _ x) eqn:E.
  - apply Listener_eqb_eq in E. intros [-> | H]; congruence.
  - simpl. intuition.
Qed.

Lemma NoDup_remove (type : string) (cb : Handler) (t : EventTarget) :
  NoDup t -> NoDup (removeEventListener type cb t).
Proof.
  induction 1 as [|x t Hx Ht IH]; simpl; [constructor|].
  destruct (Listener_eqb _ x); auto.
  constructor; auto. intros H. apply Hx. eapply In_remove; eauto.
Qed.

Lemma not_In_remove (type : string) (cb : Handler) (t : EventTarget) :
  NoDup t ->
  ~ In {| eventType := type; callback := cb |} (removeEventListener type cb t).
Proof.
  induction 1 as [|x t Hx Ht IH]; simpl; auto.
  destruct (Listener_eqb _ x) eqn:E.
  - apply Listener_eqb_eq in E. now subst.
  - simpl. intros [-> | H]; auto.
    assert (Listener_eqb {| eventType := type; callback := cb |}
              {| eventType := type; callback := cb |} = true)
      by now apply Listener_eqb_eq.
    congruence.
Qed.

Lemma NoDup_call (c : Call) (t : EventTarget) : NoDup t -> NoDup (call c t).
Proof. destruct c; simpl; auto using NoDup_add, NoDup_remove. Qed.

Lemma dispatch_In (type : string) (cb : Handler) (t : EventTarget) :
  In cb (dispatch type t) <-> In {| eventType := type; callback := cb |} t.
Proof.
  unfold dispatch. rewrite in_map_iff. split.
  - intros [[ty c] [<- Hin]]. apply filter_In in Hin. simpl in *.
    destruct Hin as [Hin He]. apply String.eqb_eq in He. now subst.
  - intros H. eexists; split; [|apply filter_In; split; [exact H|]]; simpl; auto.
    apply String.eqb_refl.
Qed.

End ZoomAndPanFacts.

Module ZoomAndPanTheorems.
Import ZoomAndPan ZoomAndPanFacts.

Example initZoomAndPan_fresh_canvas :
  initZoomAndPan []
  = [ {| eventType := "wheel"; callback := wheelHandler |};
      {| eventType := "touchend"; callback := touchEndHandler |} ].
Proof. reflexivity. Qed.

(** C10: on a canvas whose listener list has no repeated entry, after
    initZoomAndPan the wheel and touchend handlers are registered and the
    touchstart and touchmove handlers are not; both were registered after
    the first three statements and the next two took them out again, so a
    touchstart or touchmove event dispatched afterwards does not reach
    touchStartHandler or touchMoveHandler. *)
Theorem initZoomAndPan_listeners (canvas : EventTarget) :
  NoDup canvas ->
  let after := initZoomAndPan canvas in
  registered "wheel" wheelHandler after = true /\
  registered "touchend" touchEndHandler after = true /\
  registered "touchstart" touchStartHandler after = false /\
  registered "touchmove" touchMoveHandler after = false /\
  (let added := calls (firstn 3 initZoomAndPan_body) canvas in
   registered "touchstart" touchStartHandler added = true /\
   registered "touchmove" touchMoveHandler added = true /\
   after = calls (skipn 3 initZoomAndPan_body) added) /\
  ~ In touchStartHandler (dispatch "touchstart" after) /\
  ~ In touchMoveHandler (dispatch "touchmove" after).
Proof.
  intros ND after.
  set (t1 := addEventListener "wheel" wheelHandler canvas).
  set (t2 := addEventListener "touchstart" touchStartHandler t1).
  set (t3 := addEventListener "touchmove" touchMoveHandler t2).
  set (t4 := removeEventListener "touchstart" touchStartHandler t3).
  set (t5 := removeEventListener "touchmove" touchMoveHandler t4).
  set (t6 := removeEventListener "touchend" touchEndHandler t5).
  assert (Hafter : after = addEventListener "touchend" touchEndHandler t6)
    by reflexivity.
  assert (ND3 : NoDup t3) by (repeat apply NoDup_add; exact ND).
  assert (ND4 : NoDup t4) by (apply NoDup_remove; exact ND3).
  assert (Hstart : ~ In {| eventType := "touchstart"; callback := touchStartHandler |} after).
  { rewrite Hafter. rewrite In_add. intros [H | H]; [discriminate|].
    apply In_remove, In_remove in H. revert H. apply not_In_remove; exact ND3. }
  assert (Hmove : ~ In {| eventType := "touchmove"; callback := touchMoveHandler |} after).
  { rewrite Hafter. rewrite In_add. intros [H | H]; [discriminate|].
    apply In_remove in H. revert H. apply not_In_remove; exact ND4. }
  repeat split.
  - apply registered_In. rewrite Hafter. apply In_add. right.
    repeat (apply In_remove_other; [discriminate|]).
    unfold t3, t2, t1. rewrite !In_add. auto.
  - apply registered_In. rewrite Hafter. apply In_add. now left.
  - apply not_true_is_false. now rewrite registered_In.
  - apply not_true_is_false. now rewrite registered_In.
  - apply registered_In. change (In {| eventType := "touchstart"; callback := touchStartHandler |} t3).
    unfold t3, t2. rewrite !In_add. auto.
  - apply registered_In. change (In {| eventType := "touchmove"; callback := touchMoveHandler |} t3).
    unfold t3. rewrite In_add. auto.
  - now rewrite dispatch_In.
  - now rewrite dispatch_In.
Qed.

Lemma initZoomAndPan_listeners_witness :
  registered "touchstart" touchStartHandler
    (initZoomAndPan [ {| eventType := "touchstart"; callback := touchStartHandler |};
                      {| eventType := "mousedown"; callback := mouseDownHandler |} ])
  = false.
Proof.
  apply (initZoomAndPan_listeners
           [ {| eventType := "touchstart"; callback := touchStartHandler |};
             {| eventType := "mousedown"; callback := mouseDownHandler |} ]).
  repeat constructor; simpl; intuition discriminate.
Defined.

End ZoomAndPanTheorems.

Module RelayFacts.
Import JsString Relay.

Lemma withSent_same (w : World) : withSent (sent w) w = w.
Proof. now destruct w. Qed.

Lemma withUsers_same (w : World) : withUsers (users w) w = w.
Proof. now destruct w. Qed.

Lemma includesRoom_In (roomId : string) (rs : list string) :
  includesRoom roomId rs = true <-> In roomId rs.
Proof.
  unfold includesRoom. rewrite existsb_exists. split.
  - intros [r [Hin He]]. apply String.eqb_eq in He. now subst.
  - intros H. exists roomId. split; [exact H | apply String.eqb_refl].
Qed.

Lemma usersInRoom_In (roomId : string) (us : list User) (u : User) :
  In u (usersInRoom roomId us) <-> In u us /\ In roomId (rooms u).
Proof. unfold usersInRoom. now rewrite filter_In, includesRoom_In. Qed.

Lemma openMembers_In (roomId : string) (us : list User) (u : User) :
  In u (openMembers roomId us)
  <-> In u us /\ In roomId (rooms u) /\ readyState (ws u) = OPEN.
Proof.
  unfold openMembers. rewrite filter_In, usersInRoom_In.
  assert (E : isOPEN (readyState (ws u)) = true <-> readyState (ws u) = OPEN)
    by (destruct (readyState (ws u)); simpl; split; congruence).
  rewrite E. tauto.
Qed.

(** *** What the two loops send *)

Lemma forEach_guarded (l : list User) (m : ServerMsg) (w : World) :
  forEach l (fun user =>
    if isOPEN (readyState (ws user)) then send (ws user) m else ret tt) w
  = Fulfilled tt
      (withSent (sent w ++ deliveries m
                   (filter (fun user => isOPEN (readyState (ws user))) l)) w).
Proof.
  revert w; induction l as [|x l IH]; intros w; simpl.
  - unfold ret. rewrite app_nil_r. now rewrite withSent_same.
  - unfold bind. destruct (isOPEN (readyState (ws x))); simpl.
    + rewrite IH. unfold withSent; simpl. now rewrite <- app_assoc.
    + apply IH.
Qed.

Lemma forEach_unguarded (l : list User) (m : ServerMsg) (w : World) :
  forEach l (fun user => send (ws user) m) w
  = Fulfilled tt (withSent (sent w ++ deliveries m l) w).
Proof.
  revert w; induction l as [|x l IH]; intros w; simpl.
  - unfold ret. rewrite app_nil_r. now rewrite withSent_same.
  - unfold bind; simpl. rewrite IH. unfold withSent; simpl.
    now rewrite <- app_assoc.
Qed.

Lemma broadcast_eq (roomId : string) (m : ServerMsg) (w : World) :
  broadcast roomId m w
  = Fulfilled tt
      (withSent (sent w ++ deliveries m (openMembers roomId (users w))) w).
Proof. unfold broadcast, bind, getUsers. apply forEach_guarded. Qed.

Lemma newSends_app (w w' : World) (new : list (nat * ServerMsg)) :
  sent w' = (sent w ++ new)%list -> newSends w w' = new.
Proof.
  intros E. unfold newSends. rewrite E.
  rewrite skipn_app, skipn_all, Nat.sub_diag. reflexivity.
Qed.

(** *** Who a list of deliveries reaches *)

Lemma targets_deliveries (m : ServerMsg) (us : list User) :
  targets (deliveries m us) = map sockOf us.
Proof. unfold targets, deliveries. rewrite map_map. reflexivity. Qed.

Lemma sentTo_not_target (s : nat) (tr : list (nat * ServerMsg)) :
  ~ In s (targets tr) -> sentTo s tr = [].
Proof.
  unfold sentTo, targets. induction tr as [|[s' m] tr IH]; simpl; auto.
  intros H. destruct (Nat.eqb_spec s' s).
  - exfalso. apply H. now left.
  - apply IH. intros Hin. apply H. now right.
Qed.

Lemma sentTo_deliveries_all (s : nat) (m : ServerMsg) (us : list User) :
  Forall (fun e => e = m) (sentTo s (deliveries m us)).
Proof.
  unfold sentTo, deliveries. induction us as [|x us IH]; simpl; auto.
  destruct (Nat.eqb (sockOf x) s); simpl; auto.
Qed.

Lemma sentTo_deliveries_once (m : ServerMsg) (P : User -> bool)
    (us : list User) (u : User) :
  NoDup (map sockOf us) -> In u us ->
  sentTo (sockOf u) (deliveries m (filter P us)) = if P u then [m] else [].
Proof.
  induction us as [|x us IH]; simpl; [tauto|].
  intros ND Hin. inversion ND as [|? ? Hx ND']; subst.
  assert (Hrest : forall v, sockOf v = sockOf x ->
            sentTo (sockOf v) (deliveries m (filter P us)) = []).
  { intros v Hv. apply sentTo_not_target. rewrite targets_deliveries, Hv.
    intros H. apply Hx. apply in_map_iff in H. destruct H as [y [Hy Hin']].
    apply filter_In in Hin'. apply in_map_iff. exists y. tauto. }
  destruct Hin as [-> | Hin].
  - destruct (P u); [|now apply Hrest].
    unfold sentTo, deliveries; simpl. rewrite Nat.eqb_refl. simpl.
    f_equal. now apply Hrest.
  - assert (Hne : sockOf x <> sockOf u).
    { intros E. apply Hx. rewrite E. now apply in_map. }
    rewrite <- (IH ND' Hin).
    destruct (P x); [|reflexivity].
    unfold sentTo, deliveries; simpl.
    destruct (Nat.eqb_spec (sockOf x) (sockOf u)); [contradiction|reflexivity].
Qed.

Section Handler.

Variable Number : string -> Z.
Variable getUserId : WebSocket -> string.

Local Abbreviation onMessage := (Relay.onMessage Number getUserId).
Local Abbreviation onChat := (Relay.onChat Number getUserId).
Local Abbreviation onDeleteShape := (Relay.onDeleteShape Number).
Local Abbreviation onClearCanvas := (Relay.onClearCanvas Number).

Local Abbreviation rowOf := (Relay.rowOf Number getUserId).
Local Abbreviation matches := (Relay.matches Number).

Lemma onMessage_chat (socket : WebSocket) (pd : ParsedData) :
  type pd = "chat" -> onMessage socket pd = onChat socket pd.
Proof. intros E. unfold Relay.onMessage. now rewrite E. Qed.

Lemma onMessage_delete_shape (socket : WebSocket) (pd : ParsedData) :
  type pd = "delete_shape" -> onMessage socket pd = onDeleteShape socket pd.
Proof. intros E. unfold Relay.onMessage. now rewrite E. Qed.

Lemma onMessage_clear_canvas (socket : WebSocket) (pd : ParsedData) :
  type pd = "clear_canvas" -> onMessage socket pd = onClearCanvas socket pd.
Proof. intros E. unfold Relay.onMessage. now rewrite E. Qed.

Lemma onMessage_join_room (socket : WebSocket) (pd : ParsedData) :
  type pd = "join_room" -> onMessage socket pd = onJoinRoom socket pd.
Proof. intros E. unfold Relay.onMessage. now rewrite E. Qed.

Lemma onChat_up (socket : WebSocket) (pd : ParsedData) (w : World) :
  storeUp w = true ->
  onChat socket pd w
  = Fulfilled tt
      {| users := users w;
         chatTable := chatTable w ++ [rowOf socket pd];
         storeUp := true;
         sent := sent w ++ deliveries (chat_msg (message pd) (roomId pd))
                             (openMembers (roomId pd) (users w)) |}.
Proof.
  intros Up. unfold Relay.onChat, bind, prisma_chat_create. rewrite Up.
  rewrite broadcast_eq. unfold withSent, withChatTable; simpl. now rewrite Up.
Qed.

Lemma onChat_down (socket : WebSocket) (pd : ParsedData) (w : World) :
  storeUp w = false -> onChat socket pd w = Rejected w.
Proof.
  intros Down. unfold Relay.onChat, bind, prisma_chat_create. now rewrite Down.
Qed.

Lemma onDeleteShape_up (socket : WebSocket) (pd : ParsedData) (w : World) :
  storeUp w = true ->
  onDeleteShape socket pd w
  = Fulfilled tt
      {| users := users w;
         chatTable := filter (fun row => negb (matches pd row)) (chatTable w);
         storeUp := true;
         sent := sent w ++ deliveries (delete_shape_msg (shapeId pd) (roomId pd))
                             (usersInRoom (roomId pd) (users w)) |}.
Proof.
  intros Up. unfold Relay.onDeleteShape, bind, prisma_chat_deleteMany, getUsers.
  rewrite Up. rewrite forEach_unguarded.
  unfold withSent, withChatTable; simpl. now rewrite Up.
Qed.

Lemma onDeleteShape_down (socket : WebSocket) (pd : ParsedData) (w : World) :
  storeUp w = false -> onDeleteShape socket pd w = Rejected w.
Proof.
  intros Down. unfold Relay.onDeleteShape, bind, prisma_chat_deleteMany.
  now rewrite Down.
Qed.

Lemma onClearCanvas_up (socket : WebSocket) (pd : ParsedData) (w : World) :
  storeUp w = true ->
  onClearCanvas socket pd w
  = Fulfilled tt
      {| users := users w;
         chatTable := filter (fun row =>
                        negb (Z.eqb (Prisma.roomId row) (Number (roomId pd))))
                        (chatTable w);
         storeUp := true;
         sent := sent w ++ deliveries (clear_canvas_msg (roomId pd))
                             (openMembers (roomId pd) (users w)) |}.
Proof.
  intros Up. unfold Relay.onClearCanvas, tryCatch, bind, prisma_chat_deleteMany.
  rewrite Up. rewrite broadcast_eq.
  unfold withSent, withChatTable; simpl. now rewrite Up.
Qed.

End Handler.

End RelayFacts.

Module RelayTheorems.
Import JsString Client Relay Server RelayFacts.

Lemma filter_idempotent {A : Type} (f : A -> bool) (l : list A) :
  filter f (filter f l) = filter f l.
Proof.
  induction l as [|x l IH]; simpl; auto.
  destruct (f x) eqn:E; simpl; [rewrite E|]; now rewrite ?IH.
Qed.

Lemma filter_all {A : Type} (f : A -> bool) (l : list A) :
  (forall x, In x l -> f x = true) -> filter f l = l.
Proof.
  induction l as [|x l IH]; simpl; auto. intros H.
  rewrite (H x) by now left. f_equal. apply IH. intros y Hy. apply H. now right.
Qed.

Lemma openMembers_filter (roomId : string) (us : list User) :
  openMembers roomId us
  = filter (fun user => includesRoom roomId (rooms user)
                        && isOPEN (readyState (ws user))) us.
Proof.
  unfold openMembers, usersInRoom.
  induction us as [|x us IH]; simpl; auto.
  destruct (includesRoom roomId (rooms x)); simpl; [|exact IH].
  destruct (isOPEN (readyState (ws x))); now rewrite IH.
Qed.

Lemma isOPEN_true (r : ReadyState) : isOPEN r = true <-> r = OPEN.
Proof. destruct r; simpl; split; congruence. Qed.

Lemma sockOf_injective (us : list User) (u v : User) :
  NoDup (map sockOf us) -> In u us -> In v us -> sockOf u = sockOf v -> u = v.
Proof.
  induction us as [|x us IH]; simpl; [tauto|].
  intros ND Hu Hv E. inversion ND as [|? ? Hx ND']; subst.
  destruct Hu as [-> | Hu], Hv as [-> | Hv]; auto.
  - exfalso. apply Hx. rewrite E. now apply in_map.
  - exfalso. apply Hx. rewrite <- E. now apply in_map.
Qed.

Lemma newSends_same (w : World) : newSends w w = [].
Proof. unfold newSends. now apply skipn_all. Qed.

Lemma In_deliveries (m : ServerMsg) (us : list User) (s : nat) (m' : ServerMsg) :
  In (s, m') (deliveries m us) <-> m' = m /\ exists u, In u us /\ sockOf u = s.
Proof.
  unfold deliveries. rewrite in_map_iff. split.
  - intros [u [E Hin]]. inversion E; subst. eauto.
  - intros [-> [u [Hin <-]]]. eauto.
Qed.

Section Handler.

Variable Number : string -> Z.
Variable getUserId : WebSocket -> string.

Local Abbreviation onMessage := (Relay.onMessage Number getUserId).
Local Abbreviation rowOf := (Relay.rowOf Number getUserId).
Local Abbreviation matches := (Relay.matches Number).
Local Abbreviation emitMessage := (Server.emitMessage Number getUserId).

(** C1: a chat message for a room, when the store answers, appends exactly
    one row carrying the room, the received message and the identity of the
    sending socket, and then hands the received message itself to the
    fan-out over the members of the room: every member with an open socket is
    sent it, the sender's own entry like any other; a write that fails sends
    nothing. *)
Theorem chat_persists_then_broadcasts
    (w : World) (socket : WebSocket) (pd : ParsedData) :
  type pd = "chat" ->
  (storeUp w = true ->
   exists w' : World,
     onMessage socket pd w = Fulfilled tt w' /\
     chatTable w'
     = (chatTable w ++ [ {| Prisma.roomId := Number (roomId pd);
                            Prisma.message := message pd;
                            Prisma.userId := getUserId socket |} ])%list /\
     users w' = users w /\
     sent w'
     = (sent w ++ deliveries (chat_msg (message pd) (roomId pd))
                    (openMembers (roomId pd) (users w)))%list /\
     (forall u : User,
         In u (users w) -> In (roomId pd) (rooms u) ->
         readyState (ws u) = OPEN ->
         In (sockOf u, chat_msg (message pd) (roomId pd)) (newSends w w')) /\
     (forall u : User,
         In u (users w) -> ws u = socket -> In (roomId pd) (rooms u) ->
         readyState socket = OPEN ->
         In (sock socket, chat_msg (message pd) (roomId pd)) (newSends w w')) /\
     (forall (s : nat) (m : ServerMsg),
         In (s, m) (newSends w w') -> m = chat_msg (message pd) (roomId pd)))
  /\
  (storeUp w = false ->
   onMessage socket pd w = Rejected w).
Proof.
  intros Ty. rewrite (onMessage_chat _ _ _ _ Ty). split.
  - intros Up. eexists. split; [apply onChat_up; exact Up|]. simpl.
    assert (New : newSends w
              {| users := users w;
                 chatTable := chatTable w ++ [rowOf socket pd];
                 storeUp := true;
                 sent := sent w ++ deliveries (chat_msg (message pd) (roomId pd))
                                     (openMembers (roomId pd) (users w)) |}
            = deliveries (chat_msg (message pd) (roomId pd))
                (openMembers (roomId pd) (users w)))
      by now apply newSends_app.
    rewrite New.
    assert (All : forall u : User,
               In u (users w) -> In (roomId pd) (rooms u) ->
               readyState (ws u) = OPEN ->
               In (sockOf u, chat_msg (message pd) (roomId pd))
                  (deliveries (chat_msg (message pd) (roomId pd))
                     (openMembers (roomId pd) (users w)))).
    { intros u Hin Hroom Hopen. apply In_deliveries. split; auto.
      exists u. split; auto. now apply openMembers_In. }
    repeat split; auto.
    + intros u Hin <- Hroom Hopen. now apply (All u).
    + intros s m H. now apply In_deliveries in H.
  - apply onChat_down.
Qed.

(** The store call of a draw or of a delete that fails rejects the
    handler at that call, before any send. *)
Lemma onMessage_store_down (w : World) (socket : WebSocket) (pd : ParsedData) :
  storeUp w = false ->
  type pd = "chat" \/ type pd = "delete_shape" ->
  onMessage socket pd w = Rejected w.
Proof.
  intros Down [Ty | Ty].
  - rewrite (onMessage_chat _ _ _ _ Ty). now apply onChat_down.
  - rewrite (onMessage_delete_shape _ _ _ _ Ty). now apply onDeleteShape_down.
Qed.

(** C3, amended: when the store call of a draw or of a delete fails, the
    operation is aborted: nothing is broadcast and nothing, so no
    operation-failed notice either, is sent to the originating connection.
    The listener does not catch the failure, so the relay process exits:
    it holds no connection any more, those of other rooms included, and
    handles no later message.  When the store call succeeds the process
    goes on running with the connections it had. *)
Theorem store_failure_ends_the_relay
    (w : World) (socket : WebSocket) (pd : ParsedData) :
  type pd = "chat" \/ type pd = "delete_shape" ->
  (storeUp w = false ->
   exists w' : World,
     emitMessage socket pd (Running w) = Exited w' /\
     newSends w w' = [] /\
     (forall m : ServerMsg, ~ In (sock socket, m) (newSends w w')) /\
     running (emitMessage socket pd (Running w)) = false /\
     connections (emitMessage socket pd (Running w)) = [] /\
     forall (socket' : WebSocket) (pd' : ParsedData),
       emitMessage socket' pd' (emitMessage socket pd (Running w))
       = emitMessage socket pd (Running w))
  /\
  (storeUp w = true ->
   exists w' : World,
     emitMessage socket pd (Running w) = Running w' /\
     connections (Running w') = connections (Running w)).
Proof.
  intros Ty. split.
  - intros Down. exists w.
    unfold Server.emitMessage.
    rewrite (onMessage_store_down w socket pd Down Ty).
    rewrite newSends_same. repeat split; auto.
  - intros Up. unfold Server.emitMessage. destruct Ty as [Ty | Ty].
    + rewrite (onMessage_chat _ _ _ _ Ty), onChat_up by assumption.
      eexists. split; reflexivity.
    + rewrite (onMessage_delete_shape _ _ _ _ Ty), onDeleteShape_up by assumption.
      eexists. split; reflexivity.
Qed.

(** C4, amended: the fan-out of the chat branch is fulfilled and sends the
    message once to every member of the room whose socket is open and not
    at all to an entry whose socket is not open; it leaves the registry and
    the table as they were, so a member with a closed socket is still a
    member of the room after the broadcast. *)
Theorem broadcast_skips_closed_sockets
    (w : World) (roomId : string) (m : ServerMsg) :
  NoDup (map sockOf (users w)) ->
  exists w' : World,
    broadcast roomId m w = Fulfilled tt w' /\
    (forall u : User,
        In u (users w) -> In roomId (rooms u) -> readyState (ws u) = OPEN ->
        sentTo (sockOf u) (newSends w w') = [m]) /\
    (forall u : User,
        In u (users w) -> readyState (ws u) <> OPEN ->
        sentTo (sockOf u) (newSends w w') = [] /\
        ~ In (sockOf u) (targets (newSends w w'))) /\
    users w' = users w /\
    chatTable w' = chatTable w /\
    (forall u : User,
        In u (usersInRoom roomId (users w)) ->
        In u (usersInRoom roomId (users w'))).
Proof.
  intros ND. eexists. split; [apply broadcast_eq|].
  rewrite (newSends_app w _ (deliveries m (openMembers roomId (users w))))
    by reflexivity.
  rewrite openMembers_filter.
  repeat split; auto.
  - intros u Hin Hroom Hopen. rewrite sentTo_deliveries_once by assumption.
    apply includesRoom_In in Hroom. apply isOPEN_true in Hopen.
    now rewrite Hroom, Hopen.
  - rewrite sentTo_deliveries_once by assumption.
    destruct (isOPEN (readyState (ws u))) eqn:E.
    + apply isOPEN_true in E. contradiction.
    + now rewrite andb_false_r.
  - rewrite targets_deliveries. intros Hs.
    apply in_map_iff in Hs. destruct Hs as [v [Ev Hv]].
    apply filter_In in Hv. destruct Hv as [Hv Pv].
    assert (v = u) by (eapply sockOf_injective; eauto). subst v.
    apply andb_true_iff in Pv. destruct Pv as [_ Pv].
    apply isOPEN_true in Pv. contradiction.
Qed.

(** C6: the sends of a chat or of a delete for room A go to sockets of
    members of A only, and a connection whose only room is another room B is
    sent nothing. *)
Theorem room_isolation (w : World) (socket : WebSocket) (pd : ParsedData) :
  type pd = "chat" \/ type pd = "delete_shape" ->
  (forall s : nat,
      In s (targets (newSends w (worldOf (onMessage socket pd w)))) ->
      In s (map sockOf (usersInRoom (roomId pd) (users w)))) /\
  (forall (u : User) (B : string),
      NoDup (map sockOf (users w)) ->
      In u (users w) -> rooms u = [B] -> B <> roomId pd ->
      ~ In (sockOf u) (targets (newSends w (worldOf (onMessage socket pd w)))) /\
      sentTo (sockOf u) (newSends w (worldOf (onMessage socket pd w))) = []).
Proof.
  intros Ty.
  assert (Sub : forall s : nat,
      In s (targets (newSends w (worldOf (onMessage socket pd w)))) ->
      In s (map sockOf (usersInRoom (roomId pd) (users w)))).
  { destruct (storeUp w) eqn:Up; destruct Ty as [Ty | Ty].
    - rewrite (onMessage_chat _ _ _ _ Ty), onChat_up by assumption. simpl.
      erewrite newSends_app by reflexivity. rewrite targets_deliveries.
      intros s Hs. apply in_map_iff in Hs. destruct Hs as [v [Ev Hv]].
      apply in_map_iff. exists v. split; auto.
      unfold openMembers in Hv. now apply filter_In in Hv.
    - rewrite (onMessage_delete_shape _ _ _ _ Ty), onDeleteShape_up by assumption.
      simpl. erewrite newSends_app by reflexivity.
      now rewrite targets_deliveries.
    - rewrite (onMessage_chat _ _ _ _ Ty), onChat_down by assumption. simpl.
      rewrite newSends_same. intros s [].
    - rewrite (onMessage_delete_shape _ _ _ _ Ty), onDeleteShape_down by assumption.
      simpl. rewrite newSends_same. intros s []. }
  split; [exact Sub|].
  intros u B ND Hin Hrooms HB.
  assert (Hno : ~ In (sockOf u)
                  (targets (newSends w (worldOf (onMessage socket pd w))))).
  { intros Hs. apply Sub in Hs. apply in_map_iff in Hs.
    destruct Hs as [v [Ev Hv]]. apply usersInRoom_In in Hv.
    destruct Hv as [Hv Hroom].
    assert (v = u) by (eapply sockOf_injective; eauto). subst v.
    rewrite Hrooms in Hroom. destruct Hroom as [E | []]. congruence. }
  split; [exact Hno | now apply sentTo_not_target].
Qed.

(** C7: a clear for a room, when the store answers, leaves no row of that
    room in the table, leaves the rows of the other rooms as they were, and
    then broadcasts the clear directive: every member of the room with an
    open socket is sent it. *)
Theorem clear_empties_room_then_broadcasts
    (w : World) (socket : WebSocket) (pd : ParsedData) :
  type pd = "clear_canvas" ->
  storeUp w = true ->
  exists w' : World,
    onMessage socket pd w = Fulfilled tt w' /\
    recordsOf (Number (roomId pd)) (chatTable w') = [] /\
    (forall r : Z,
        r <> Number (roomId pd) ->
        recordsOf r (chatTable w') = recordsOf r (chatTable w)) /\
    users w' = users w /\
    sent w'
    = (sent w ++ deliveries (clear_canvas_msg (roomId pd))
                   (openMembers (roomId pd) (users w)))%list /\
    (forall u : User,
        In u (users w) -> In (roomId pd) (rooms u) ->
        readyState (ws u) = OPEN ->
        In (sockOf u, clear_canvas_msg (roomId pd)) (newSends w w')).
Proof.
  intros Ty Up. rewrite (onMessage_clear_canvas _ _ _ _ Ty).
  eexists. split; [apply onClearCanvas_up; exact Up|]. simpl.
  erewrite newSends_app by reflexivity.
  unfold recordsOf. repeat split; auto.
  - induction (chatTable w) as [|row t IH]; simpl; auto.
    destruct (Z.eqb (Prisma.roomId row) (Number (roomId pd))) eqn:E; simpl; auto.
    now rewrite E.
  - intros r Hr. induction (chatTable w) as [|row t IH]; simpl; auto.
    destruct (Z.eqb_spec (Prisma.roomId row) (Number (roomId pd))) as [E | E];
      simpl; [|now rewrite IH].
    destruct (Z.eqb_spec (Prisma.roomId row) r); [congruence | exact IH].
  - intros u Hin Hroom Hopen. apply In_deliveries. split; auto.
    exists u. split; auto. now apply openMembers_In.
Qed.

(** C8: a delete, when the store answers, is fulfilled, and the same delete
    issued again is fulfilled too and leaves the table and the registry as
    the first left them; a delete that matches no row leaves the table as it
    was; and removing an identifier from a member's shape list a second
    time, or removing one that no shape carries, leaves the list as it is. *)
Theorem delete_is_idempotent
    (w : World) (socket : WebSocket) (pd : ParsedData) :
  type pd = "delete_shape" ->
  storeUp w = true ->
  exists w1 w2 : World,
    onMessage socket pd w = Fulfilled tt w1 /\
    onMessage socket pd w1 = Fulfilled tt w2 /\
    chatTable w2 = chatTable w1 /\
    users w2 = users w1 /\
    ((forall row : Prisma.Chat, In row (chatTable w) -> matches pd row = false) ->
     chatTable w1 = chatTable w) /\
    (forall shapes : list Shape,
        deleteShape (shapeId pd) (deleteShape (shapeId pd) shapes)
        = deleteShape (shapeId pd) shapes) /\
    (forall shapes : list Shape,
        (forall s : Shape, In s shapes -> id s <> shapeId pd) ->
        deleteShape (shapeId pd) shapes = shapes).
Proof.
  intros Ty Up. rewrite (onMessage_delete_shape _ _ _ _ Ty).
  eexists. eexists. split; [apply onDeleteShape_up; exact Up|].
  split; [apply onDeleteShape_up; reflexivity|]. simpl.
  repeat split.
  - apply filter_idempotent.
  - intros H. apply filter_all. intros row Hin. now rewrite (H row Hin).
  - intros shapes. apply filter_idempotent.
  - intros shapes H. apply filter_all. intros s Hin.
    apply negb_true_iff. apply String.eqb_neq. now apply H.
Qed.

(** C5: for a connection already joined to a room, a further join_room for
    that room is fulfilled and changes nothing: the registry, with the rooms
    of the connection, is as before and nothing is sent; [join] on a list of
    rooms is idempotent and keeps it free of repetitions; and a chat for the
    room handled after the second join is sent to that connection exactly
    once. *)
Theorem rejoin_is_idempotent
    (w : World) (socket : WebSocket) (pd : ParsedData) (u : User) :
  type pd = "join_room" ->
  NoDup (map sockOf (users w)) ->
  In u (users w) ->
  sockOf u = sock socket ->
  In (roomId pd) (rooms u) ->
  onMessage socket pd w = Fulfilled tt w /\
  (forall rs : list string,
      join (roomId pd) (join (roomId pd) rs) = join (roomId pd) rs /\
      (NoDup rs -> NoDup (join (roomId pd) rs))) /\
  (forall (sender : WebSocket) (draw : ParsedData),
      type draw = "chat" -> roomId draw = roomId pd ->
      storeUp w = true -> readyState (ws u) = OPEN ->
      exists w' : World,
        (onMessage socket pd ;; onMessage sender draw) w = Fulfilled tt w' /\
        sentTo (sockOf u) (newSends w w')
        = [chat_msg (message draw) (roomId draw)]).
Proof.
  intros Ty ND Hin Hsock Hroom.
  assert (J : onMessage socket pd w = Fulfilled tt w).
  { rewrite (onMessage_join_room _ _ _ _ Ty).
    unfold onJoinRoom, bind, getUsers, setUsers.
    assert (Same : map (updateRooms socket (join (roomId pd))) (users w) = users w).
    { rewrite <- (map_id (users w)) at 2. apply map_ext_in. intros v Hv.
      unfold updateRooms. destruct (Nat.eqb_spec (sock (ws v)) (sock socket)) as [E | E]; auto.
      assert (v = u) by (eapply sockOf_injective; eauto; unfold sockOf in *; congruence).
      subst v. unfold join. apply includesRoom_In in Hroom. rewrite Hroom.
      now destruct u. }
    rewrite Same. now rewrite withUsers_same. }
  split; [exact J|]. split.
  - intros rs. unfold join. destruct (includesRoom (roomId pd) rs) eqn:E.
    + rewrite E. auto.
    + assert (In' : includesRoom (roomId pd) (rs ++ [roomId pd]) = true)
        by (apply includesRoom_In, in_app_iff; right; now left).
      rewrite In'. split; auto. intros NDrs.
      apply NoDup_app; auto.
      * repeat constructor. intros [].
      * intros r Hr [<- | []]. apply includesRoom_In in Hr. congruence.
  - intros sender draw Td Rd Up Hopen.
    unfold bind at 1. rewrite J.
    rewrite (onMessage_chat _ _ _ _ Td), onChat_up by assumption.
    eexists. split; [reflexivity|].
    erewrite newSends_app by reflexivity.
    rewrite openMembers_filter, sentTo_deliveries_once by assumption.
    rewrite Rd. apply includesRoom_In in Hroom. apply isOPEN_true in Hopen.
    now rewrite Hroom, Hopen.
Qed.

End Handler.

End RelayTheorems.

(** ** The scenarios of the room with two connections *)

Module RelayScenarios.
Import JsString Client Relay Server Scene.

Local Abbreviation onMessage := (Relay.onMessage decimalNumber identityOf).
Local Abbreviation emitMessage := (Server.emitMessage decimalNumber identityOf).

(** The entries of a concrete registry have pairwise distinct sockets. *)
Ltac distinct_sockets :=
  simpl; repeat constructor; simpl; intuition discriminate.

Example joined_registry : users joined = [userA; userB].
Proof. reflexivity. Qed.

(** Both connections are sent the one chat message of a draw, and the table
    holds the one row of the room with that payload. *)
Example draw_reaches_both :
  let w' := handle c1 (draw "s1") joined in
  sentTo 1 (sent w') = [chat_msg (stringifyShape (circle "s1")) "1"] /\
  sentTo 2 (sent w') = [chat_msg (stringifyShape (circle "s1")) "1"] /\
  recordsOf 1 (chatTable w')
  = [ {| Prisma.roomId := 1; Prisma.message := stringifyShape (circle "s1");
         Prisma.userId := "user_A" |} ].
Proof. repeat split. Qed.

Lemma chat_persists_then_broadcasts_witness :
  exists w' : World,
    onMessage c1 (draw "s1") joined = Fulfilled tt w' /\
    chatTable w'
    = [ {| Prisma.roomId := 1; Prisma.message := stringifyShape (circle "s1");
           Prisma.userId := "user_A" |} ] /\
    In (1, chat_msg (stringifyShape (circle "s1")) "1") (newSends joined w') /\
    In (2, chat_msg (stringifyShape (circle "s1")) "1") (newSends joined w').
Proof.
  destruct (RelayTheorems.chat_persists_then_broadcasts
              decimalNumber identityOf joined c1 (draw "s1") eq_refl)
    as [Up _].
  destruct (Up eq_refl) as [w' [H1 [H2 [_ [_ [H5 [H6 _]]]]]]].
  exists w'. split; [exact H1|]. split; [exact H2|]. split.
  - apply (H6 userA); simpl; auto.
  - apply (H5 userB); simpl; auto.
Defined.

(** C3, as stated, fails: three connections are open, the third one in
    another room, and the store is down when the first connection draws.
    No operation-failed notice, nor anything else, is sent to the
    originating connection, and the relay process is terminated: it no
    longer runs, and the connection of the other room is dropped with all
    the others. *)
Lemma store_failure_drops_every_connection :
  let p := Running (storeDown (withThird joined)) in
  let p' := emitMessage c1 (draw "s1") p in
  connections p = [1; 2; 3] /\
  sentTo (sock c1) (sentBy p') = [] /\
  ~ (exists m : ServerMsg, In (sock c1, m) (sentBy p')) /\
  running p' = false /\
  connections p' = [] /\
  ~ In (sock c3) (connections p').
Proof.
  repeat split.
  - intros [m H]. exact H.
  - intros H. exact H.
Qed.

Lemma store_failure_ends_the_relay_witness :
  (exists w' : World,
      emitMessage c1 (draw "s1") (Running (storeDown (withThird joined)))
      = Exited w' /\
      newSends (storeDown (withThird joined)) w' = []) /\
  (exists w' : World,
      emitMessage c2 (delete "1" "s1") (Running (withThird joined))
      = Running w' /\
      connections (Running w') = [1; 2; 3]).
Proof.
  split.
  - destruct (RelayTheorems.store_failure_ends_the_relay
                decimalNumber identityOf (storeDown (withThird joined)) c1
                (draw "s1") (or_introl eq_refl)) as [Down _].
    destruct (Down eq_refl) as [w' [H1 [H2 _]]].
    exists w'. split; [exact H1 | exact H2].
  - destruct (RelayTheorems.store_failure_ends_the_relay
                decimalNumber identityOf (withThird joined) c2
                (delete "1" "s1") (or_intror eq_refl)) as [_ Up].
    destruct (Up eq_refl) as [w' [H1 H2]].
    exists w'. split; [exact H1 | exact H2].
Defined.

(** C4, as stated, fails: the second connection has disconnected and the
    first then draws; the draw is fulfilled and nothing is sent to the
    second socket, but the next query of the members of the room still
    answers the entry of the second connection. *)
Lemma closed_member_stays_in_room :
  let w := c2Closed joined in
  let w' := handle c1 (draw "s1") w in
  onMessage c1 (draw "s1") w = Fulfilled tt w' /\
  sentTo 2 (newSends w w') = [] /\
  In 2 (map sockOf (usersInRoom "1" (users w'))) /\
  ~ (~ In 2 (map sockOf (usersInRoom "1" (users w')))).
Proof.
  repeat split.
  - simpl. auto.
  - intros H. apply H. simpl. auto.
Qed.

Lemma broadcast_skips_closed_sockets_witness :
  exists w' : World,
    broadcast "1" (chat_msg (stringifyShape (circle "s1")) "1") (c2Closed joined)
    = Fulfilled tt w' /\
    sentTo 1 (newSends (c2Closed joined) w')
    = [chat_msg (stringifyShape (circle "s1")) "1"] /\
    sentTo 2 (newSends (c2Closed joined) w') = [] /\
    users w' = users (c2Closed joined).
Proof.
  assert (ND : NoDup (map sockOf (users (c2Closed joined)))).
  { distinct_sockets. }
  destruct (RelayTheorems.broadcast_skips_closed_sockets
              (c2Closed joined) "1"
              (chat_msg (stringifyShape (circle "s1")) "1") ND)
    as [w' [H1 [H2 [H3 [H4 _]]]]].
  exists w'. split; [exact H1|]. split; [|split; [|exact H4]].
  - apply (H2 userA); simpl; auto.
  - apply (H3 {| ws := {| sock := 2; readyState := CLOSED |};
                 rooms := ["1"]; userId := "user_B" |}); simpl; auto.
    discriminate.
Defined.

(** An identifier that holds quotes, s1 continued with the text that
    follows it in a serialized circle, removes the row of the shape s1; the
    record of a shape that carries the continued identifier itself has the
    quotes escaped and is not matched.  A plain prefix matches nothing of
    the longer identifier: deleting shape_1 leaves the row of shape_12. *)
Example continued_id_removes_the_shorter :
  let w := handle c1 (draw "s1") joined in
  recordsOf 1 (chatTable w)
  = [ {| Prisma.roomId := 1; Prisma.message := stringifyShape (circle "s1");
         Prisma.userId := "user_A" |} ] /\
  recordsOf 1 (chatTable (handle c2 (delete "1" (continued "s1")) w)) = [] /\
  includes (idPattern (continued "s1"))
           (stringifyShape (circle (continued "s1"))) = false.
Proof. repeat split; reflexivity. Qed.

Example plain_prefix_is_not_matched :
  includes (idPattern "shape_1") (stringifyShape (circle "shape_12")) = false /\
  let w := handle c1 (draw "shape_12") joined in
  chatTable (handle c2 (delete "1" "shape_1") w) = chatTable w.
Proof. split; reflexivity. Qed.

Lemma room_isolation_witness :
  ~ In 3 (targets (newSends (withThird joined)
                     (worldOf (onMessage c1 (draw "s1") (withThird joined))))) /\
  sentTo 3 (newSends (withThird joined)
              (worldOf (onMessage c1 (draw "s1") (withThird joined)))) = [].
Proof.
  destruct (RelayTheorems.room_isolation
              decimalNumber identityOf (withThird joined) c1 (draw "s1")
              (or_introl eq_refl)) as [_ Only].
  apply (Only userC "2").
  - distinct_sockets.
  - simpl. auto.
  - reflexivity.
  - discriminate.
Defined.

(** After five draws of the first connection, its clear leaves no row of
    the room and both connections are sent the clear directive. *)
Example clear_after_five_draws :
  List.length (recordsOf 1 (chatTable fiveDraws)) = 5 /\
  let w' := handle c1 clear fiveDraws in
  recordsOf 1 (chatTable w') = [] /\
  sentTo 1 (newSends fiveDraws w') = [clear_canvas_msg "1"] /\
  sentTo 2 (newSends fiveDraws w') = [clear_canvas_msg "1"].
Proof. repeat split. Qed.

Lemma clear_empties_room_then_broadcasts_witness :
  exists w' : World,
    onMessage c1 clear fiveDraws = Fulfilled tt w' /\
    recordsOf 1 (chatTable w') = [] /\
    In (1, clear_canvas_msg "1") (newSends fiveDraws w') /\
    In (2, clear_canvas_msg "1") (newSends fiveDraws w').
Proof.
  destruct (RelayTheorems.clear_empties_room_then_broadcasts
              decimalNumber identityOf fiveDraws c1 clear eq_refl eq_refl)
    as [w' [H1 [H2 [_ [_ [_ H6]]]]]].
  exists w'. split; [exact H1|]. split; [exact H2|]. split.
  - apply (H6 userA); simpl; auto.
  - apply (H6 userB); simpl; auto.
Defined.

Lemma delete_is_idempotent_witness :
  exists w1 w2 : World,
    onMessage c2 (delete "1" "s1") (handle c1 (draw "s1") joined)
    = Fulfilled tt w1 /\
    onMessage c2 (delete "1" "s1") w1 = Fulfilled tt w2 /\
    chatTable w2 = chatTable w1 /\
    deleteShape "s1" (deleteShape "s1" [circle "s1"; circle "s2"])
    = deleteShape "s1" [circle "s1"; circle "s2"].
Proof.
  destruct (RelayTheorems.delete_is_idempotent
              decimalNumber identityOf (handle c1 (draw "s1") joined) c2
              (delete "1" "s1") eq_refl eq_refl)
    as [w1 [w2 [H1 [H2 [H3 [_ [_ [H6 _]]]]]]]].
  exists w1, w2. split; [exact H1|]. split; [exact H2|]. split; [exact H3|].
  apply (H6 [circle "s1"; circle "s2"]).
Defined.

Lemma rejoin_is_idempotent_witness :
  onMessage c1 (envelope "join_room" "1" "" "") joined = Fulfilled tt joined /\
  exists w' : World,
    (onMessage c1 (envelope "join_room" "1" "" "") ;; onMessage c2 (draw "s1"))
      joined = Fulfilled tt w' /\
    sentTo 1 (newSends joined w') = [chat_msg (stringifyShape (circle "s1")) "1"].
Proof.
  assert (ND : NoDup (map sockOf (users joined))).
  { distinct_sockets. }
  destruct (RelayTheorems.rejoin_is_idempotent
              decimalNumber identityOf joined c1
              (envelope "join_room" "1" "" "") userA eq_refl ND
              (or_introl eq_refl) eq_refl (or_introl eq_refl))
    as [H1 [_ H3]].
  split; [exact H1|].
  apply (H3 c2 (draw "s1")); reflexivity.
Defined.

End RelayScenarios.

(** ** Facts about the maps, the room cache and the rate limiter *)

Module JsMapFacts.

Section Map.

Context {V : Type}.

Implicit Types (m : JsMap.t V) (k : string) (v : V).

Lemma get_set_same k v m : JsMap.get k (JsMap.set k v m) = Some v.
Proof.
  induction m as [|[k' v'] m IH]; simpl.
  - now rewrite String.eqb_refl.
  - destruct (String.eqb k' k) eqn:E; simpl.
    + now rewrite String.eqb_refl.
    + now rewrite E.
Qed.

Lemma get_set_other k k' v m :
  k <> k' -> JsMap.get k' (JsMap.set k v m) = JsMap.get k' m.
Proof.
  intros Hne. pose proof Hne as Hb. apply String.eqb_neq in Hb.
  induction m as [|[k0 v0] m IH]; simpl.
  - now rewrite Hb.
  - destruct (String.eqb_spec k0 k) as [-> | Hk]; simpl.
    + now rewrite Hb.
    + now rewrite IH.
Qed.

Lemma get_delete_same k m : JsMap.get k (JsMap.delete k m) = None.
Proof.
  unfold JsMap.delete. induction m as [|[k' v'] m IH]; simpl; auto.
  destruct (String.eqb k' k) eqn:E; simpl; auto. now rewrite E.
Qed.

Lemma get_delete_other k k' m :
  k <> k' -> JsMap.get k' (JsMap.delete k m) = JsMap.get k' m.
Proof.
  intros Hne. unfold JsMap.delete.
  induction m as [|[k0 v0] m IH]; simpl; auto.
  destruct (String.eqb_spec k0 k) as [-> | Hk]; simpl.
  - apply String.eqb_neq in Hne. now rewrite Hne.
  - now rewrite IH.
Qed.

Lemma delete_absent k m : JsMap.get k m = None -> JsMap.delete k m = m.
Proof.
  unfold JsMap.delete. induction m as [|[k' v'] m IH]; simpl; auto.
  destruct (String.eqb k' k) eqn:E; simpl; [discriminate|].
  intros H. now rewrite IH.
Qed.

Lemma In_keys_get k m : In k (JsMap.keys m) <-> JsMap.get k m <> None.
Proof.
  unfold JsMap.keys. induction m as [|[k' v'] m IH]; simpl.
  - tauto.
  - destruct (String.eqb_spec k' k) as [-> | Hk].
    + split; [discriminate | auto].
    + rewrite IH. tauto.
Qed.

Lemma keys_set_present k v m :
  JsMap.get k m <> None -> JsMap.keys (JsMap.set k v m) = JsMap.keys m.
Proof.
  unfold JsMap.keys. induction m as [|[k' v'] m IH]; simpl; [congruence|].
  destruct (String.eqb_spec k' k) as [-> | Hk]; simpl; auto.
  intros H. now rewrite IH.
Qed.

Lemma set_absent k v m :
  JsMap.get k m = None -> JsMap.set k v m = (m ++ [(k, v)])%list.
Proof.
  induction m as [|[k' v'] m IH]; simpl; auto.
  destruct (String.eqb k' k); [discriminate|]. intros H. now rewrite IH.
Qed.

Lemma NoDup_keys_set k v m :
  NoDup (JsMap.keys m) -> NoDup (JsMap.keys (JsMap.set k v m)).
Proof.
  intros ND. destruct (JsMap.get k m) eqn:G.
  - rewrite keys_set_present; [exact ND | congruence].
  - rewrite set_absent by exact G. unfold JsMap.keys. rewrite map_app. simpl.
    apply NoDup_app; auto.
    + repeat constructor. intros [].
    + intros x Hx [<- | []]. apply In_keys_get in Hx. contradiction.
Qed.

Lemma Forall_values_set (P : V -> Prop) k v m :
  P v -> Forall P (JsMap.values m) -> Forall P (JsMap.values (JsMap.set k v m)).
Proof.
  intros Pv. unfold JsMap.values.
  induction m as [|[k' v'] m IH]; simpl; intros H.
  - repeat constructor; exact Pv.
  - inversion H; subst. destruct (String.eqb k' k); simpl; constructor; auto.
Qed.

Lemma get_values (P : V -> Prop) k v m :
  Forall P (JsMap.values m) -> JsMap.get k m = Some v -> P v.
Proof.
  unfold JsMap.values. induction m as [|[k' v'] m IH]; simpl; [discriminate|].
  intros H G. inversion H; subst. destruct (String.eqb k' k); auto.
  now inversion G; subst.
Qed.

End Map.

End JsMapFacts.

Module RoomCacheTheorems.
Import JsMapFacts.

(** X1: shapes stored for a room are answered unchanged by every read made
    no later than five minutes after the write (the fifth minute included),
    and such a read leaves the cache as it is. *)
Theorem cache_round_trip (cache : JsMap.t RoomCache.Entry) (roomId : string)
    (shapes : list Client.Shape) (written read : Z) :
  (read - written <= RoomCache.TTL)%Z ->
  RoomCache.get read roomId (RoomCache.set written roomId shapes cache)
  = (Some shapes, RoomCache.set written roomId shapes cache).
Proof.
  intros Fresh. unfold RoomCache.get, RoomCache.set.
  rewrite get_set_same. simpl.
  destruct (Z.gtb_spec (read - written) RoomCache.TTL); [lia | reflexivity].
Qed.

Lemma cache_round_trip_witness :
  RoomCache.get 300000 "1" (RoomCache.set 0 "1" [Scene.circle "s1"] JsMap.empty)
  = (Some [Scene.circle "s1"],
     RoomCache.set 0 "1" [Scene.circle "s1"] JsMap.empty).
Proof.
  apply (cache_round_trip JsMap.empty "1" [Scene.circle "s1"] 0 300000).
  unfold RoomCache.TTL. lia.
Defined.

(** X2: a read made more than five minutes after the write answers null and
    removes the entry of the room: the room is no longer a key, every later
    read of it answers null whatever the clock says, and the entries of the
    other rooms are the ones the cache had before the write. *)
Theorem cache_expiry (cache : JsMap.t RoomCache.Entry) (roomId : string)
    (shapes : list Client.Shape) (written read : Z) :
  (RoomCache.TTL < read - written)%Z ->
  let after :=
    snd (RoomCache.get read roomId (RoomCache.set written roomId shapes cache)) in
  fst (RoomCache.get read roomId (RoomCache.set written roomId shapes cache))
  = None /\
  JsMap.has roomId after = false /\
  (forall later : Z, RoomCache.get later roomId after = (None, after)) /\
  (forall other : string,
      other <> roomId -> JsMap.get other after = JsMap.get other cache).
Proof.
  intros Stale after. subst after.
  assert (E : RoomCache.get read roomId
                (RoomCache.set written roomId shapes cache)
              = (None, JsMap.delete roomId
                         (RoomCache.set written roomId shapes cache))).
  { unfold RoomCache.get, RoomCache.set. rewrite get_set_same.
    cbn [RoomCache.lastUpdate].
    destruct (Z.gtb_spec (read - written) RoomCache.TTL); [reflexivity | lia]. }
  rewrite E. cbn [fst snd].
  assert (Gone : JsMap.get roomId
                   (JsMap.delete roomId
                      (RoomCache.set written roomId shapes cache)) = None)
    by apply get_delete_same.
  split; [reflexivity|]. split; [|split].
  - unfold JsMap.has. now rewrite Gone.
  - intros later. unfold RoomCache.get. rewrite Gone.
    now rewrite delete_absent by exact Gone.
  - intros other Hne. unfold RoomCache.set.
    rewrite get_delete_other, get_set_other by congruence. reflexivity.
Qed.

Lemma cache_expiry_witness :
  fst (RoomCache.get 300001 "1"
         (RoomCache.set 0 "1" [Scene.circle "s1"] JsMap.empty)) = None.
Proof.
  apply (cache_expiry JsMap.empty "1" [Scene.circle "s1"] 0 300001).
  unfold RoomCache.TTL. lia.
Defined.

End RoomCacheTheorems.

Module RateLimitTheorems.
Import RateLimit JsMapFacts.

Local Open Scope Z_scope.

(** Inside a window: with [c] requests counted and every call made no
    later than the reset time, the next [100 - c] calls are allowed and all
    the following ones are refused. *)
Lemma requests_in_window (times : list Z) (userId action : string)
    (rateLimiter : JsMap.t Limit) (c reset : Z) :
  JsMap.get (keyOf userId action) rateLimiter
  = Some {| count := c; resetTime := reset |} ->
  Forall (fun now => now <= reset) times ->
  fst (requests times userId action rateLimiter)
  = (repeat Allowed (Nat.min (List.length times) (Z.to_nat (maxRequests - c)))
     ++ repeat RateLimitExceeded
          (List.length times - Z.to_nat (maxRequests - c)))%list.
Proof.
  revert rateLimiter c.
  induction times as [|now times IH]; intros rateLimiter c G Hall; [reflexivity|].
  inversion Hall as [|? ? Hnow Hrest]; subst.
  cbn [requests]. unfold checkRateLimit. rewrite G. cbn [resetTime count].
  destruct (Z.gtb_spec now reset); [lia|].
  destruct (Z.geb_spec c maxRequests) as [Full | Room].
  - specialize (IH rateLimiter c G Hrest).
    destruct (requests times userId action rateLimiter) as [os rl'].
    cbn [fst] in *. rewrite IH.
    replace (Z.to_nat (maxRequests - c)) with 0%nat by lia.
    rewrite Nat.min_0_r, !Nat.sub_0_r. reflexivity.
  - specialize (IH (JsMap.set (keyOf userId action)
                      {| count := c + 1; resetTime := reset |} rateLimiter)
                   (c + 1) (get_set_same _ _ _) Hrest).
    destruct (requests times userId action _) as [os rl'].
    cbn [fst] in *. rewrite IH.
    replace (Z.to_nat (maxRequests - c))
      with (S (Z.to_nat (maxRequests - (c + 1)))) by (unfold maxRequests in *; lia).
    reflexivity.
Qed.

(** X3: in a fresh window, opened by a first request for a key that has no
    entry or whose reset time has passed, the first hundred requests made
    no later than one minute after the first are allowed and every further
    one in that minute is refused. *)
Theorem first_hundred_allowed (first : Z) (times : list Z)
    (userId action : string) (rateLimiter : JsMap.t Limit) :
  (JsMap.get (keyOf userId action) rateLimiter = None \/
   exists limit : Limit,
     JsMap.get (keyOf userId action) rateLimiter = Some limit /\
     resetTime limit < first) ->
  Forall (fun now => now <= first + windowMs) times ->
  fst (requests (first :: times) userId action rateLimiter)
  = (repeat Allowed (Nat.min (S (List.length times)) 100)
     ++ repeat RateLimitExceeded (S (List.length times) - 100))%list.
Proof.
  intros Fresh Hall.
  assert (Step : checkRateLimit first userId action rateLimiter
                 = (Allowed,
                    JsMap.set (keyOf userId action)
                      {| count := 1; resetTime := first + windowMs |}
                      rateLimiter)).
  { unfold checkRateLimit. destruct Fresh as [-> | [limit [-> Late]]]; auto.
    destruct (Z.gtb_spec first (resetTime limit)); [reflexivity | lia]. }
  cbn [requests]. rewrite Step.
  pose proof (requests_in_window times userId action
                (JsMap.set (keyOf userId action)
                   {| count := 1; resetTime := first + windowMs |} rateLimiter)
                1 (first + windowMs) (get_set_same _ _ _) Hall) as In.
  destruct (requests times userId action _) as [os rl'].
  cbn [fst] in *. rewrite In.
  change (Z.to_nat (maxRequests - 1)) with 99%nat.
  destruct (List.length times) as [|n]; [reflexivity|].
  cbn [Nat.min Nat.sub repeat app]. reflexivity.
Qed.

Lemma first_hundred_allowed_witness :
  fst (requests (0 :: repeat 60000 100) "user_A" "draw" JsMap.empty)
  = (repeat Allowed 100 ++ [RateLimitExceeded])%list.
Proof.
  apply (first_hundred_allowed 0 (repeat 60000 100) "user_A" "draw" JsMap.empty).
  - left. reflexivity.
  - apply Forall_forall. intros now Hin. apply repeat_spec in Hin. subst.
    unfold windowMs. lia.
Defined.

(** X4: when every entry of the limiter counts between one and a hundred
    requests, a call keeps it so, changes no entry but that of its own key,
    and a refused call changes nothing at all. *)
Theorem checkRateLimit_keeps_counts (now : Z) (userId action : string)
    (rateLimiter : JsMap.t Limit) :
  Forall (fun limit => 1 <= count limit <= maxRequests)
         (JsMap.values rateLimiter) ->
  Forall (fun limit => 1 <= count limit <= maxRequests)
         (JsMap.values (snd (checkRateLimit now userId action rateLimiter))) /\
  (forall key : string,
      key <> keyOf userId action ->
      JsMap.get key (snd (checkRateLimit now userId action rateLimiter))
      = JsMap.get key rateLimiter) /\
  (fst (checkRateLimit now userId action rateLimiter) = RateLimitExceeded ->
   snd (checkRateLimit now userId action rateLimiter) = rateLimiter).
Proof.
  intros Inv. unfold checkRateLimit.
  destruct (JsMap.get (keyOf userId action) rateLimiter) as [limit|] eqn:G.
  - pose proof (get_values _ _ _ _ Inv G) as Hc. cbn beta in Hc.
    destruct (Z.gtb_spec now (resetTime limit)).
    + cbn [fst snd]. repeat split.
      * apply Forall_values_set; [cbn; unfold maxRequests; lia | exact Inv].
      * intros key Hne. now rewrite get_set_other by congruence.
      * discriminate.
    + destruct (Z.geb_spec (count limit) maxRequests).
      * cbn [fst snd]. repeat split; auto.
      * cbn [fst snd]. repeat split.
        -- apply Forall_values_set; [cbn; lia | exact Inv].
        -- intros key Hne. now rewrite get_set_other by congruence.
        -- discriminate.
  - cbn [fst snd]. repeat split.
    + apply Forall_values_set; [cbn; unfold maxRequests; lia | exact Inv].
    + intros key Hne. now rewrite get_set_other by congruence.
    + discriminate.
Qed.

Lemma checkRateLimit_keeps_counts_witness :
  Forall (fun limit => 1 <= count limit <= maxRequests)
         (JsMap.values (snd (checkRateLimit 5 "user_A" "draw"
                               [("user_A:draw",
                                 {| count := 100; resetTime := 10 |})]))).
Proof.
  apply (checkRateLimit_keeps_counts 5 "user_A" "draw"
           [("user_A:draw", {| count := 100; resetTime := 10 |})]).
  repeat constructor; cbn; unfold maxRequests; lia.
Defined.

End RateLimitTheorems.

(** ** Facts about input sanitization *)

Module ListsFacts.
Import Lists.

Local Open Scope list_scope.

Lemma Subsequence_refl {A : Type} (s : list A) : Subsequence s s.
Proof. induction s; constructor; auto. Qed.

Lemma Subsequence_trans {A : Type} (a b c : list A) :
  Subsequence a b -> Subsequence b c -> Subsequence a c.
Proof.
  intros Hab Hbc. revert a Hab.
  induction Hbc as [|x b c Hbc IH|x b c Hbc IH]; intros a Hab.
  - exact Hab.
  - inversion Hab; subst; constructor; auto.
  - constructor. auto.
Qed.

Lemma Subsequence_suffix {A : Type} (w s : list A) : Subsequence s (w ++ s).
Proof. induction w; simpl; [apply Subsequence_refl | now constructor]. Qed.

Lemma Subsequence_prefix {A : Type} (s w : list A) : Subsequence s (s ++ w).
Proof.
  induction s as [|c s IH]; simpl.
  - induction w; constructor; auto.
  - now constructor.
Qed.

Lemma Subsequence_filter {A : Type} (f : A -> bool) (s : list A) :
  Subsequence (filter f s) s.
Proof.
  induction s as [|c s IH]; simpl; [constructor|].
  destruct (f c); now constructor.
Qed.

Lemma Subsequence_firstn {A : Type} (n : nat) (s : list A) :
  Subsequence (firstn n s) s.
Proof.
  rewrite <- (firstn_skipn n s) at 2. apply Subsequence_prefix.
Qed.

Lemma Subsequence_In {A : Type} (a b : list A) (x : A) :
  Subsequence a b -> In x a -> In x b.
Proof.
  induction 1 as [|y a b H IH|y a b H IH]; simpl; auto.
  intros [-> | Hin]; auto.
Qed.

Lemma Subsequence_snoc {A : Type} (a b : list A) (x : A) :
  Subsequence a b -> Subsequence (a ++ [x]) (b ++ [x]).
Proof.
  induction 1; simpl; constructor; auto. constructor.
Qed.

Lemma Subsequence_skip {A : Type} (a b : list A) (x : A) :
  Subsequence a b -> Subsequence a (b ++ [x]).
Proof.
  induction 1; simpl; try (constructor; auto; fail).
  repeat constructor.
Qed.

End ListsFacts.

Module SanitizeFacts.
Import Lists ListsFacts Sanitize.

Local Open Scope list_scope.

Lemma trimStart_suffix (s : jsstring) :
  exists w : jsstring, s = (w ++ trimStart s)%list.
Proof.
  induction s as [|c s [w IH]]; simpl.
  - now exists [].
  - destruct (isWhiteSpace c).
    + exists (c :: w). simpl. now rewrite <- IH.
    + now exists [].
Qed.

Lemma trimEnd_prefix (s : jsstring) :
  exists w : jsstring, s = (trimEnd s ++ w)%list.
Proof.
  unfold trimEnd. destruct (trimStart_suffix (rev s)) as [w E].
  exists (rev w). rewrite <- rev_app_distr, <- E. now rewrite rev_involutive.
Qed.

Lemma Subsequence_trim (s : jsstring) : Subsequence (trim s) s.
Proof.
  unfold trim.
  destruct (trimEnd_prefix (trimStart s)) as [w1 E1].
  destruct (trimStart_suffix s) as [w2 E2].
  apply Subsequence_trans with (b := trimStart s).
  - rewrite E1 at 2. apply Subsequence_prefix.
  - rewrite E2 at 2. apply Subsequence_suffix.
Qed.

Lemma trim_trimmed (s : jsstring) : trimmed s -> trim s = s.
Proof.
  destruct s as [|c s]; [reflexivity|]. intros [Hfirst Hlast].
  unfold trim. cbn [trimStart]. rewrite Hfirst.
  unfold trimEnd.
  assert (E : rev (c :: s) = last (c :: s) c :: rev (removelast (c :: s))).
  { rewrite (app_removelast_last c (l := c :: s)) at 1 by discriminate.
    rewrite rev_app_distr. reflexivity. }
  rewrite E. cbn [trimStart]. rewrite Hlast. rewrite <- E.
  apply rev_involutive.
Qed.

Lemma removeAngles_clean (s : jsstring) :
  Forall (fun c => isAngle c = false) s -> removeAngles s = s.
Proof.
  unfold removeAngles. induction 1 as [|c s Hc Hs IH]; simpl; auto.
  rewrite Hc. simpl. now rewrite IH.
Qed.

Lemma last_cons_nonempty (c d : N) (s : jsstring) :
  s <> [] -> last (c :: s) d = last s d.
Proof. destruct s; [congruence | reflexivity]. Qed.

End SanitizeFacts.

Module SanitizeTheorems.
Import Lists ListsFacts Sanitize SanitizeFacts.

Local Open Scope list_scope.

(** X5: the sanitized text has at most a thousand code units, holds neither
    angle bracket, and is the input with code units left out: nothing is
    added and the order is kept. *)
Theorem sanitizeInput_output (input : jsstring) :
  List.length (sanitizeInput input) <= 1000 /\
  Forall (fun c => isAngle c = false) (sanitizeInput input) /\
  Subsequence (sanitizeInput input) input.
Proof.
  unfold sanitizeInput, substring0. repeat split.
  - apply firstn_le_length.
  - apply Forall_forall. intros c Hc.
    assert (Hin : In c (removeAngles (trim input))).
    { rewrite <- (firstn_skipn 1000 (removeAngles (trim input))).
      apply in_or_app. now left. }
    unfold removeAngles in Hin. apply filter_In in Hin.
    now apply negb_true_iff.
  - eapply Subsequence_trans; [apply Subsequence_firstn|].
    eapply Subsequence_trans; [apply Subsequence_filter|].
    apply Subsequence_trim.
Qed.

(** X6: a text of at most a thousand code units with no angle bracket and
    no white space at either end is returned as it is. *)
Theorem sanitizeInput_clean (input : jsstring) :
  trimmed input ->
  Forall (fun c => isAngle c = false) input ->
  List.length input <= 1000 ->
  sanitizeInput input = input.
Proof.
  intros Ht Ha Hl. unfold sanitizeInput, substring0.
  rewrite trim_trimmed, removeAngles_clean by assumption.
  now apply firstn_all2.
Qed.

Lemma sanitizeInput_clean_witness :
  sanitizeInput [104; 105; 32; 97]%N = [104; 105; 32; 97]%N.
Proof.
  apply (sanitizeInput_clean [104; 105; 32; 97]%N).
  - split; reflexivity.
  - repeat constructor.
  - simpl. lia.
Defined.

(** X7: angle brackets are removed after the trimming, so white space that
    a bracket shielded stays at the end of the result: for a clean non-empty
    text t of fewer than a thousand code units, a less-than sign, a space
    and t become a space and t, and sanitizing that again gives t; the
    function is not idempotent. *)
Theorem sanitizeInput_not_idempotent (t : jsstring) :
  t <> [] ->
  trimmed t ->
  Forall (fun c => isAngle c = false) t ->
  List.length t < 1000 ->
  sanitizeInput (60 :: 32 :: t)%N = (32 :: t)%N /\
  sanitizeInput (32 :: t)%N = t /\
  sanitizeInput (sanitizeInput (60 :: 32 :: t)%N)
  <> sanitizeInput (60 :: 32 :: t)%N.
Proof.
  intros Hne Ht Ha Hl.
  assert (Clean : sanitizeInput t = t)
    by (apply sanitizeInput_clean; auto; lia).
  assert (Last : forall d : N, isWhiteSpace (last t d) = false).
  { destruct t as [|c t]; [congruence|]. destruct Ht as [_ Ht]. intros d.
    rewrite (app_removelast_last c (l := c :: t)) in Ht |- * by discriminate.
    rewrite !last_last in *. exact Ht. }
  assert (First : sanitizeInput (60 :: 32 :: t)%N = (32 :: t)%N).
  { unfold sanitizeInput, substring0. rewrite trim_trimmed.
    - cbn [removeAngles filter isAngle N.eqb orb negb Pos.eqb].
      change (filter (fun c => negb (isAngle c)) t) with (removeAngles t).
      rewrite removeAngles_clean by assumption.
      apply firstn_all2. simpl. lia.
    - split; [reflexivity|].
      rewrite last_cons_nonempty by discriminate.
      rewrite last_cons_nonempty by assumption. apply Last. }
  assert (Second : sanitizeInput (32 :: t)%N = t).
  { assert (E : trim (32 :: t)%N = trim t) by reflexivity.
    unfold sanitizeInput in *. rewrite E. exact Clean. }
  split; [exact First|]. split; [exact Second|].
  rewrite First, Second. intros E.
  apply (f_equal (@List.length N)) in E. simpl in E. lia.
Qed.

Lemma sanitizeInput_not_idempotent_witness :
  sanitizeInput [60; 32; 97]%N = [32; 97]%N /\ sanitizeInput [32; 97]%N = [97]%N.
Proof.
  destruct (sanitizeInput_not_idempotent [97]%N) as [H1 [H2 _]].
  - discriminate.
  - split; reflexivity.
  - repeat constructor.
  - simpl. lia.
  - split; [exact H1 | exact H2].
Defined.

End SanitizeTheorems.

(** ** Facts about the merge of replicated shapes *)

Module CrdtFacts.
Import Crdt JsMapFacts.

Local Open Scope list_scope.
Local Open Scope Z_scope.

Lemma Merged_empty : Merged JsMap.empty [].
Proof.
  repeat split; try constructor; simpl; try discriminate; contradiction.
Qed.

Lemma Merged_step (m : JsMap.t CRDTShape) (seen : list CRDTShape)
    (shape : CRDTShape) :
  Merged m seen -> Merged (mergeStep m shape) (seen ++ [shape]).
Proof.
  intros [ND [Own Newest]]. unfold mergeStep.
  destruct (JsMap.get (id shape) m) as [existing|] eqn:G.
  - destruct (Z.gtb_spec (version shape) (version existing)) as [Gt | Le].
    + split; [now apply NoDup_keys_set|]. split.
      * intros k v Hv. destruct (string_dec (id shape) k) as [<- | Hne].
        -- rewrite get_set_same in Hv. inversion Hv; subst.
           split; auto. apply in_or_app. right. now left.
        -- rewrite get_set_other in Hv by exact Hne.
           destruct (Own k v Hv). split; auto. apply in_or_app. now left.
      * intros s Hs. destruct (string_dec (id shape) (id s)) as [E | Hne].
        -- rewrite <- E, get_set_same. exists shape. split; auto.
           apply in_app_or in Hs. destruct Hs as [Hs | [<- | []]]; [|lia].
           destruct (Newest s Hs) as [v [Hv Hle]].
           rewrite <- E, G in Hv. inversion Hv; subst. lia.
        -- rewrite get_set_other by exact Hne.
           apply in_app_or in Hs. destruct Hs as [Hs | [<- | []]]; [|congruence].
           now apply Newest.
    + split; [exact ND|]. split.
      * intros k v Hv. destruct (Own k v Hv). split; auto.
        apply in_or_app. now left.
      * intros s Hs. apply in_app_or in Hs. destruct Hs as [Hs | [<- | []]].
        -- now apply Newest.
        -- exists existing. split; auto.
  - split; [now apply NoDup_keys_set|]. split.
    + intros k v Hv. destruct (string_dec (id shape) k) as [<- | Hne].
      * rewrite get_set_same in Hv. inversion Hv; subst.
        split; auto. apply in_or_app. right. now left.
      * rewrite get_set_other in Hv by exact Hne.
        destruct (Own k v Hv). split; auto. apply in_or_app. now left.
    + intros s Hs. destruct (string_dec (id shape) (id s)) as [E | Hne].
      * rewrite <- E, get_set_same. exists shape. split; auto.
        apply in_app_or in Hs. destruct Hs as [Hs | [<- | []]]; [|lia].
        destruct (Newest s Hs) as [v [Hv _]]. rewrite <- E, G in Hv. discriminate.
      * rewrite get_set_other by exact Hne.
        apply in_app_or in Hs. destruct Hs as [Hs | [<- | []]]; [|congruence].
        now apply Newest.
Qed.

Lemma Merged_fold (l : list CRDTShape) (m : JsMap.t CRDTShape)
    (seen : list CRDTShape) :
  Merged m seen -> Merged (fold_left mergeStep l m) (seen ++ l).
Proof.
  revert m seen. induction l as [|s l IH]; intros m seen H; simpl.
  - now rewrite app_nil_r.
  - replace (seen ++ s :: l) with ((seen ++ [s]) ++ l)
      by (now rewrite <- app_assoc).
    apply IH. now apply Merged_step.
Qed.

Lemma Merged_mergedMap (local remote : list CRDTShape) :
  Merged (mergedMap local remote) (local ++ remote).
Proof. apply (Merged_fold (local ++ remote) JsMap.empty []), Merged_empty. Qed.

Lemma In_get (m : JsMap.t CRDTShape) (k : string) (v : CRDTShape) :
  NoDup (JsMap.keys m) -> In (k, v) m -> JsMap.get k m = Some v.
Proof.
  unfold JsMap.keys. induction m as [|[k' v'] m IH]; simpl; [tauto|].
  intros ND [E | Hin].
  - inversion E; subst. now rewrite String.eqb_refl.
  - inversion ND as [|? ? Hk ND']; subst.
    destruct (String.eqb_spec k' k) as [-> | Hne]; auto.
    exfalso. apply Hk. apply in_map_iff. now exists (k, v).
Qed.

Lemma In_values (m : JsMap.t CRDTShape) (v : CRDTShape) :
  In v (JsMap.values m) -> exists k, In (k, v) m.
Proof.
  unfold JsMap.values. rewrite in_map_iff.
  intros [[k v'] [E Hin]]. simpl in E. subst. now exists k.
Qed.

Lemma ids_of_values (m : JsMap.t CRDTShape) (seen : list CRDTShape) :
  Merged m seen -> map id (JsMap.values m) = JsMap.keys m.
Proof.
  intros [ND [Own _]]. unfold JsMap.values, JsMap.keys. rewrite map_map.
  apply map_ext_in. intros [k v] Hin. simpl.
  now destruct (Own k v (In_get m k v ND Hin)).
Qed.

Lemma distinct_ids_filter (keep : CRDTShape -> bool) (shapes : list CRDTShape) :
  NoDup (map id shapes) -> NoDup (map id (filter keep shapes)).
Proof.
  intros Distinct. induction shapes as [|s shapes IH]; simpl; auto.
  inversion Distinct as [|? ? Fresh Rest]; subst.
  destruct (keep s); simpl; auto. constructor; auto.
  intros Hin. apply Fresh. apply in_map_iff in Hin. destruct Hin as [y [E Hy]].
  apply filter_In in Hy. apply in_map_iff. exists y. tauto.
Qed.

(** Shapes with pairwise distinct identifiers, none of them a key yet, go
    to the end of the map one after the other. *)
Lemma fold_fresh (l : list CRDTShape) (m : JsMap.t CRDTShape) :
  NoDup (map id l) ->
  (forall s, In s l -> JsMap.get (id s) m = None) ->
  fold_left mergeStep l m = m ++ map (fun s => (id s, s)) l.
Proof.
  revert m. induction l as [|s l IH]; intros m ND Fresh; simpl.
  - now rewrite app_nil_r.
  - inversion ND as [|? ? Hs ND']; subst.
    unfold mergeStep at 2. rewrite (Fresh s) by now left.
    rewrite set_absent by (apply Fresh; now left).
    rewrite IH; auto.
    + now rewrite <- app_assoc.
    + intros s' Hs'. rewrite <- set_absent by (apply Fresh; now left).
      rewrite get_set_other.
      * apply Fresh. now right.
      * intros E. apply Hs. rewrite E. now apply in_map.
Qed.

(** Shapes that the map already holds at least as new change nothing. *)
Lemma fold_known (l : list CRDTShape) (m : JsMap.t CRDTShape) :
  (forall s, In s l ->
     exists v, JsMap.get (id s) m = Some v /\ version s <= version v) ->
  fold_left mergeStep l m = m.
Proof.
  induction l as [|s l IH]; intros Known; simpl; auto.
  assert (Same : mergeStep m s = m).
  { unfold mergeStep. destruct (Known s) as [v [-> Hle]]; [now left|].
    destruct (Z.gtb_spec (version s) (version v)); [lia | reflexivity]. }
  rewrite Same. apply IH. intros s' Hs'. apply Known. now right.
Qed.

End CrdtFacts.

Module CrdtTheorems.
Import Crdt JsMapFacts CrdtFacts.

Local Open Scope list_scope.
Local Open Scope Z_scope.

(** X8: the merged list holds at most one shape per identifier, holds no
    tombstone, and every shape in it is one of the local or remote shapes. *)
Theorem mergeShapes_result (local remote : list CRDTShape) :
  NoDup (map id (mergeShapes local remote)) /\
  Forall (fun shape => tombstone shape = false) (mergeShapes local remote) /\
  (forall shape, In shape (mergeShapes local remote) ->
                 In shape (local ++ remote)).
Proof.
  pose proof (Merged_mergedMap local remote) as M.
  pose proof M as [ND [Own _]].
  unfold mergeShapes. repeat split.
  - apply distinct_ids_filter. now rewrite (ids_of_values _ _ M).
  - apply Forall_forall. intros s Hs. apply filter_In in Hs.
    now apply negb_true_iff.
  - intros s Hs. apply filter_In in Hs. destruct Hs as [Hs _].
    apply In_values in Hs. destruct Hs as [k Hk].
    now destruct (Own k s (In_get _ _ _ ND Hk)).
Qed.

(** X9: the newest version wins, and a newer tombstone deletes: no shape of
    the merged list is older than a local or remote shape with its
    identifier, and every local or remote shape is either answered by a
    merged shape with its identifier and at least its version, or outdone by
    a tombstone with its identifier and at least its version. *)
Theorem mergeShapes_newest_wins (local remote : list CRDTShape) :
  (forall r s,
      In r (mergeShapes local remote) -> In s (local ++ remote) ->
      id s = id r -> version s <= version r) /\
  (forall s,
      In s (local ++ remote) ->
      (exists r, In r (mergeShapes local remote) /\
                 id r = id s /\ version s <= version r) \/
      (exists d, In d (local ++ remote) /\
                 id d = id s /\ tombstone d = true /\
                 version s <= version d)).
Proof.
  pose proof (Merged_mergedMap local remote) as [ND [Own Newest]].
  unfold mergeShapes. split.
  - intros r s Hr Hs E. apply filter_In in Hr. destruct Hr as [Hr _].
    apply In_values in Hr. destruct Hr as [k Hk].
    pose proof (In_get _ _ _ ND Hk) as Gr.
    destruct (Own k r Gr) as [Ek _].
    destruct (Newest s Hs) as [v [Gv Hle]].
    rewrite E, Ek, Gr in Gv. inversion Gv; subst. exact Hle.
  - intros s Hs. destruct (Newest s Hs) as [v [Gv Hle]].
    destruct (Own _ _ Gv) as [Ev Hv].
    destruct (tombstone v) eqn:T.
    + right. exists v. auto.
    + left. exists v. repeat split; auto.
      apply filter_In. split; [|now rewrite T].
      unfold JsMap.values. apply in_map_iff. exists (id s, v). split; auto.
      clear - Gv. induction (mergedMap local remote) as [|[k' v'] m IH];
        simpl in *; [discriminate|].
      destruct (String.eqb_spec k' (id s)) as [-> | Hne].
      * inversion Gv; subst. now left.
      * right. now apply IH.
Qed.

(** X10: merging again changes nothing: a merged list merged with no remote
    shapes is returned as it is, and a replica merged with itself gives what
    it gives merged with nothing. *)
Theorem mergeShapes_absorbs (local remote : list CRDTShape) :
  mergeShapes (mergeShapes local remote) [] = mergeShapes local remote /\
  mergeShapes local local = mergeShapes local [].
Proof.
  split.
  - destruct (mergeShapes_result local remote) as [ND [Live _]].
    unfold mergeShapes at 1. unfold mergedMap. rewrite app_nil_r.
    rewrite fold_fresh by (auto; reflexivity). simpl.
    unfold JsMap.values. rewrite map_map. simpl. rewrite map_id.
    apply RelayTheorems.filter_all. intros s Hs.
    rewrite Forall_forall in Live. now rewrite (Live s Hs).
  - unfold mergeShapes, mergedMap. rewrite app_nil_r, fold_left_app.
    rewrite fold_known; [reflexivity|].
    intros s Hs.
    pose proof (Merged_fold local JsMap.empty [] Merged_empty) as [_ [_ Newest]].
    now apply Newest.
Qed.

End CrdtTheorems.

(** ** Facts about the resolution of event logs *)

Module EventSourcingFacts.
Import Lists ListsFacts EventSourcing JsMapFacts.

Local Open Scope list_scope.
Local Open Scope Z_scope.

Lemma has_set {V : Type} (k k' : string) (v : V) (m : JsMap.t V) :
  JsMap.has k (JsMap.set k' v m) = String.eqb k' k || JsMap.has k m.
Proof.
  unfold JsMap.has. destruct (String.eqb_spec k' k) as [-> | Hne].
  - now rewrite get_set_same.
  - now rewrite get_set_other.
Qed.

Lemma has_delete {V : Type} (k k' : string) (m : JsMap.t V) :
  JsMap.has k (JsMap.delete k' m) = negb (String.eqb k' k) && JsMap.has k m.
Proof.
  unfold JsMap.has. destruct (String.eqb_spec k' k) as [-> | Hne].
  - now rewrite get_delete_same.
  - now rewrite get_delete_other.
Qed.

(** *** The sort *)

Lemma In_insert (e x : DrawingEvent) (l : list DrawingEvent) :
  In x (insert e l) <-> x = e \/ In x l.
Proof.
  induction l as [|y l IH]; simpl.
  - intuition.
  - destruct (timestamp e <? timestamp y); simpl; rewrite ?IH; intuition.
Qed.

Lemma ascending_insert (e : DrawingEvent) (l : list DrawingEvent) :
  ascending l -> ascending (insert e l).
Proof.
  induction l as [|y l IH]; simpl.
  - intros _. split; [constructor | exact I].
  - intros [Hy Hl]. destruct (Z.ltb_spec (timestamp e) (timestamp y)).
    + simpl. repeat split; auto. constructor; [lia|].
      eapply Forall_impl; [|exact Hy]. simpl. intros; lia.
    + simpl. split; [|now apply IH].
      apply Forall_forall. intros x Hx. apply In_insert in Hx.
      destruct Hx as [-> | Hx]; [lia|].
      rewrite Forall_forall in Hy. now apply Hy.
Qed.

Lemma insert_last (e : DrawingEvent) (l : list DrawingEvent) :
  Forall (fun x => timestamp x <= timestamp e) l -> insert e l = l ++ [e].
Proof.
  induction 1 as [|y l Hy Hl IH]; simpl; auto.
  destruct (Z.ltb_spec (timestamp e) (timestamp y)); [lia|]. now rewrite IH.
Qed.

Lemma ascending_app (a b : list DrawingEvent) :
  ascending (a ++ b) ->
  ascending a /\ ascending b /\
  forall x y, In x a -> In y b -> timestamp x <= timestamp y.
Proof.
  induction a as [|z a IH]; simpl.
  - intros H. repeat split; auto. contradiction.
  - intros [Hz Ha]. destruct (IH Ha) as [Ha' [Hb Hab]].
    apply Forall_app in Hz. destruct Hz as [Hza Hzb].
    repeat split; auto.
    intros x y [<- | Hx] Hy; auto.
    rewrite Forall_forall in Hzb. now apply Hzb.
Qed.

Lemma fold_insert_ascending (l acc : list DrawingEvent) :
  ascending acc -> ascending (fold_left (fun s e => insert e s) l acc).
Proof.
  revert acc. induction l as [|e l IH]; simpl; auto.
  intros acc H. apply IH. now apply ascending_insert.
Qed.

Lemma fold_insert_In (l acc : list DrawingEvent) (x : DrawingEvent) :
  In x (fold_left (fun s e => insert e s) l acc) <-> In x acc \/ In x l.
Proof.
  revert acc. induction l as [|e l IH]; intros acc; simpl.
  - tauto.
  - rewrite IH, In_insert. intuition.
Qed.

Lemma fold_insert_sorted (l acc : list DrawingEvent) :
  ascending (acc ++ l) -> fold_left (fun s e => insert e s) l acc = acc ++ l.
Proof.
  revert acc. induction l as [|e l IH]; intros acc H; simpl.
  - now rewrite app_nil_r.
  - assert (E : insert e acc = acc ++ [e]).
    { apply insert_last. apply Forall_forall. intros x Hx.
      destruct (ascending_app _ _ H) as [_ [_ Hab]].
      apply Hab; [exact Hx | now left]. }
    rewrite E. rewrite IH; rewrite <- app_assoc; [reflexivity | exact H].
Qed.

Lemma sortByTimestamp_ascending (events : list DrawingEvent) :
  ascending (sortByTimestamp events).
Proof. apply fold_insert_ascending. exact I. Qed.

Lemma sortByTimestamp_In (events : list DrawingEvent) (x : DrawingEvent) :
  In x (sortByTimestamp events) <-> In x events.
Proof. unfold sortByTimestamp. rewrite fold_insert_In. simpl. tauto. Qed.

Lemma sortByTimestamp_sorted (events : list DrawingEvent) :
  ascending events -> sortByTimestamp events = events.
Proof. intros H. now apply (fold_insert_sorted events []). Qed.

Lemma ascending_Subsequence (a b : list DrawingEvent) :
  Subsequence a b -> ascending b -> ascending a.
Proof.
  induction 1 as [|x a b H IH|x a b H IH]; simpl; auto.
  - intros [Hx Hb]. split; [|now apply IH].
    apply Forall_forall. intros y Hy. rewrite Forall_forall in Hx.
    apply Hx. eapply Subsequence_In; eauto.
  - intros [_ Hb]. now apply IH.
Qed.

(** *** The loop *)

(** What the loop adds to [resolved]: events of the list in their order,
    none of them a modification, every addition among them. *)
Lemma resolve_appends (l resolved : list DrawingEvent)
    (states : JsMap.t DrawingEvent) :
  exists kept : list DrawingEvent,
    fst (fold_left resolveStep l (resolved, states)) = resolved ++ kept /\
    Subsequence kept l /\
    Forall (fun e => isModified e = false) kept /\
    filter isAdded kept = filter isAdded l.
Proof.
  revert resolved states.
  induction l as [|e l IH]; intros resolved states; cbn [fold_left].
  - exists []. rewrite app_nil_r. repeat constructor.
  - assert (Mod : eventType e <> SHAPE_MODIFIED -> isModified e = false)
      by (unfold isModified; destruct (eventType e); congruence).
    assert (Step : resolveStep (resolved, states) e = (resolved, states) \/
                   exists states',
                     resolveStep (resolved, states) e = (resolved ++ [e], states') /\
                     eventType e <> SHAPE_MODIFIED).
    { unfold resolveStep. destruct (eventType e); eauto.
      - right. eexists. split; [reflexivity | discriminate].
      - destruct (JsMap.has (shapeId e) states); eauto.
        right. eexists. split; [reflexivity | discriminate]. }
    assert (Add : isAdded e = true ->
                  exists states',
                    resolveStep (resolved, states) e = (resolved ++ [e], states')).
    { unfold isAdded, resolveStep. destruct (eventType e); try discriminate.
      eauto. }
    destruct Step as [E0 | [states' [E NotMod]]].
    + rewrite E0. destruct (IH resolved states) as [kept [E [S [M A]]]].
      exists kept. repeat split; auto; [now constructor|].
      cbn [filter]. destruct (isAdded e) eqn:IsAdd; auto.
      destruct (Add eq_refl) as [states' E'].
      rewrite E0 in E'. apply (f_equal fst) in E'. simpl in E'.
      apply (f_equal (@List.length DrawingEvent)) in E'.
      rewrite length_app in E'. simpl in E'. lia.
    + rewrite E. destruct (IH (resolved ++ [e]) states') as [kept [E' [S [M A]]]].
      exists (e :: kept). rewrite E', <- app_assoc. repeat split.
      * now constructor.
      * constructor; auto.
      * cbn [filter]. now rewrite A.
Qed.

Lemma existsb_eqb_In (k : string) (ids : list string) :
  existsb (String.eqb k) ids = true <-> In k ids.
Proof.
  rewrite existsb_exists. split.
  - intros [x [Hx E]]. apply String.eqb_eq in E. now subst.
  - intros H. exists k. split; auto. apply String.eqb_refl.
Qed.

Lemma Live_step (state : list DrawingEvent * JsMap.t DrawingEvent)
    (e : DrawingEvent) :
  Live state -> Live (resolveStep state e).
Proof.
  destruct state as [resolved states]. intros [ids [R H]]. simpl in *.
  unfold resolveStep. destruct (eventType e) eqn:T.
  - exists (shapeId e :: ids). simpl. split.
    + unfold replay in *. rewrite fold_left_app, R. simpl. now rewrite T.
    + intros k. rewrite has_set, orb_true_iff, H, String.eqb_eq. tauto.
  - destruct (JsMap.has (shapeId e) states) eqn:Has.
    + exists (filter (fun i => negb (String.eqb i (shapeId e))) ids).
      simpl. split.
      * unfold replay in *. rewrite fold_left_app, R. simpl. rewrite T.
        apply H in Has. apply existsb_eqb_In in Has. now rewrite Has.
      * intros k. rewrite has_delete, andb_true_iff, H, filter_In.
        rewrite !negb_true_iff, !String.eqb_neq. intuition.
    + exists ids. auto.
  - exists ids. auto.
Qed.

Lemma Live_fold (l : list DrawingEvent)
    (state : list DrawingEvent * JsMap.t DrawingEvent) :
  Live state -> Live (fold_left resolveStep l state).
Proof.
  revert state. induction l as [|e l IH]; simpl; auto.
  intros state H. apply IH. now apply Live_step.
Qed.

Lemma replay_failed (l : list DrawingEvent) : fold_left replayStep l None = None.
Proof. induction l; simpl; auto. Qed.

(** A log that replays and holds no modification goes through the loop
    whole. *)
Lemma resolve_keeps (l resolved : list DrawingEvent)
    (states : JsMap.t DrawingEvent) (ids : list string) :
  (forall k, JsMap.has k states = true <-> In k ids) ->
  fold_left replayStep l (Some ids) <> None ->
  Forall (fun e => isModified e = false) l ->
  fst (fold_left resolveStep l (resolved, states)) = resolved ++ l.
Proof.
  revert resolved states ids.
  induction l as [|e l IH]; intros resolved states ids H R M; cbn [fold_left].
  - simpl. now rewrite app_nil_r.
  - inversion M as [|? ? Me Ml]; subst. simpl in R.
    unfold resolveStep at 2. unfold isModified in Me.
    destruct (eventType e) eqn:T; [| |discriminate].
    + rewrite (IH _ _ (shapeId e :: ids)); auto.
      * now rewrite <- app_assoc.
      * intros k. simpl. rewrite has_set, orb_true_iff, H, String.eqb_eq. tauto.
    + destruct (existsb (String.eqb (shapeId e)) ids) eqn:Ex.
      * apply existsb_eqb_In in Ex. apply H in Ex. rewrite Ex.
        rewrite (IH _ _ (filter (fun i => negb (String.eqb i (shapeId e))) ids));
          auto.
        -- now rewrite <- app_assoc.
        -- intros k. rewrite has_delete, andb_true_iff, H, filter_In.
           rewrite !negb_true_iff, !String.eqb_neq. intuition.
      * rewrite replay_failed in R. congruence.
Qed.

End EventSourcingFacts.

Module EventSourcingTheorems.
Import Lists ListsFacts EventSourcing EventSourcingFacts.

Local Open Scope list_scope.
Local Open Scope Z_scope.

(** X11: the resolved log is the time-sorted input with events left out:
    every addition is kept, every modification is dropped, the times do not
    decrease and every event of the log is an event of the input. *)
Theorem resolveConflicts_log (events : list DrawingEvent) :
  Subsequence (resolveConflicts events) (sortByTimestamp events) /\
  filter isAdded (resolveConflicts events)
  = filter isAdded (sortByTimestamp events) /\
  Forall (fun e => isModified e = false) (resolveConflicts events) /\
  ascending (resolveConflicts events) /\
  (forall e, In e (resolveConflicts events) -> In e events).
Proof.
  unfold resolveConflicts.
  destruct (resolve_appends (sortByTimestamp events) [] JsMap.empty)
    as [kept [E [S [M A]]]].
  rewrite E. simpl. repeat split; auto.
  - eapply ascending_Subsequence; [exact S | apply sortByTimestamp_ascending].
  - intros e He. apply sortByTimestamp_In. eapply Subsequence_In; eauto.
Qed.

(** X12: the resolved log replays: taken from the empty canvas, every
    deletion in it finds the shape it deletes live, added before and not
    deleted since. *)
Theorem resolveConflicts_replays (events : list DrawingEvent) :
  exists live : list string, replay (resolveConflicts events) = Some live.
Proof.
  unfold resolveConflicts.
  destruct (Live_fold (sortByTimestamp events) ([], JsMap.empty))
    as [ids [R _]].
  - exists []. split; [reflexivity|]. intros k. simpl. split; [discriminate | tauto].
  - now exists ids.
Qed.

(** X13: resolving a resolved log returns it unchanged. *)
Theorem resolveConflicts_idempotent (events : list DrawingEvent) :
  resolveConflicts (resolveConflicts events) = resolveConflicts events.
Proof.
  destruct (resolveConflicts_log events) as [_ [_ [M [Asc _]]]].
  destruct (resolveConflicts_replays events) as [live R].
  unfold resolveConflicts at 1.
  rewrite sortByTimestamp_sorted by exact Asc.
  rewrite (resolve_keeps _ [] JsMap.empty []); auto.
  - intros k. simpl. split; [discriminate | tauto].
  - unfold replay in R. rewrite R. discriminate.
Qed.

End EventSourcingTheorems.

(** ** Facts about batched writes and query metrics *)

Module BatchTheorems.
Import Relay Batch.

Local Open Scope list_scope.

(** X14: when the store answers, a non-empty batch is written whole, one
    row per entry in the order of the array, and the array is emptied; the
    entries pushed while the insert was in flight are emptied with it: they
    are neither written nor kept. *)
Theorem processBatch_flushes (batchShapes arrivals : list Item) (w : World) :
  batchShapes <> [] ->
  storeUp w = true ->
  exists w' : World,
    processBatch batchShapes arrivals w = ([], Fulfilled tt w') /\
    chatTable w' = chatTable w ++ map rowOf batchShapes /\
    users w' = users w /\
    sent w' = sent w.
Proof.
  intros Hne Up. destruct batchShapes as [|item rest]; [congruence|].
  unfold processBatch, prisma_chat_createMany. rewrite Up.
  eexists. split; [reflexivity|]. simpl. auto.
Qed.

Lemma processBatch_flushes_witness :
  exists w' : World,
    processBatch
      [ {| roomId := 1; data := Scene.circle "s1"; userId := "user_A" |} ]
      [ {| roomId := 1; data := Scene.circle "s2"; userId := "user_B" |} ]
      Scene.joined = ([], Fulfilled tt w') /\
    List.length (chatTable w') = 1%nat.
Proof.
  destruct (processBatch_flushes
              [ {| roomId := 1; data := Scene.circle "s1"; userId := "user_A" |} ]
              [ {| roomId := 1; data := Scene.circle "s2"; userId := "user_B" |} ]
              Scene.joined) as [w' [H1 [H2 _]]].
  - discriminate.
  - reflexivity.
  - exists w'. split; [exact H1|]. rewrite H2. reflexivity.
Defined.



End BatchTheorems.

Module MetricsTheorems.
Import Metrics.

Local Open Scope Z_scope.

(** X16: after any number of monitored queries every run is counted once:
    the query count has grown by the number of runs that returned, the
    error count by the number that threw, the query time by the durations
    of the runs that returned, and the connection count is as it was; each
    run settles for its caller as the query did. *)
Theorem monitoredQueries_counts {R E : Type} (runs : list (Run R E))
    (metrics : Counters) :
  let after := monitoredQueries runs metrics in
  queryCount after
  = queryCount metrics + Z.of_nat (List.length (filter returned runs)) /\
  errorCount after
  = errorCount metrics
    + Z.of_nat (List.length (filter (fun run => negb (returned run)) runs)) /\
  queryTime after = queryTime metrics + timeReturned runs /\
  connectionCount after = connectionCount metrics /\
  queryCount after + errorCount after
  = queryCount metrics + errorCount metrics + Z.of_nat (List.length runs) /\
  (forall (run : Run R E) (m : Counters),
      fst (monitoredQuery run m) = outcome run).
Proof.
  cbv zeta.
  assert (Main : forall m,
    queryCount (monitoredQueries runs m)
    = queryCount m + Z.of_nat (List.length (filter returned runs)) /\
    errorCount (monitoredQueries runs m)
    = errorCount m
      + Z.of_nat (List.length (filter (fun run => negb (returned run)) runs)) /\
    queryTime (monitoredQueries runs m) = queryTime m + timeReturned runs /\
    connectionCount (monitoredQueries runs m) = connectionCount m).
  { unfold monitoredQueries, timeReturned.
    induction runs as [|run runs IH]; intros m; cbn [fold_left filter].
    - simpl. repeat split; lia.
    - destruct (IH (snd (monitoredQuery run m))) as [Q [Er [T C]]].
      rewrite Q, Er, T, C. unfold monitoredQuery, returned.
      destruct (outcome run); cbn [snd negb List.length fold_right filter];
        unfold recordQuery, recordError; cbn [queryCount errorCount queryTime connectionCount];
        repeat split; lia. }
  destruct (Main metrics) as [Q [Er [T C]]].
  repeat split; auto.
  - rewrite Q, Er.
    assert (L : (List.length (filter returned runs)
                 + List.length (filter (fun run => negb (returned run)) runs)
                 = List.length runs)%nat).
    { clear. induction runs as [|run runs IH]; simpl; auto.
      destruct (returned run); simpl; lia. }
    lia.
  - intros run m. unfold monitoredQuery. now destruct (outcome run).
Qed.

End MetricsTheorems.

(** ** More facts about the relay *)

Module RelayMoreFacts.
Import JsString Client Relay RelayFacts RelayRuns.

Local Open Scope list_scope.

Lemma sentTo_app (s : nat) (a b : list (nat * ServerMsg)) :
  sentTo s (a ++ b) = sentTo s a ++ sentTo s b.
Proof. unfold sentTo. now rewrite filter_app, map_app. Qed.

Lemma append_assoc (a b c : string) :
  ((a ++ b) ++ c)%string = (a ++ b ++ c)%string.
Proof. induction a as [|x a IH]; simpl; [reflexivity | now rewrite IH]. Qed.

(** The serialization of a shape whose identifier is written as it is
    holds the pattern a delete of that identifier looks for. *)
Lemma includes_own_id (shape : Shape) :
  plain (id shape) ->
  includes (idPattern (id shape)) (stringifyShape shape) = true.
Proof.
  intros P. apply JsStringFacts.includes_spec.
  exists ("{" ++ quoted "shape" ++ ":{")%string.
  exists ("," ++ quoted "type" ++ ":" ++ stringifyString (Client.type shape)
              ++ stringifyGeometry (geometry shape) ++ "}}")%string.
  unfold stringifyShape, idPattern, stringifyString. rewrite P.
  unfold quoted. rewrite !append_assoc. reflexivity.
Qed.

Section Handler.

Variable Number : string -> Z.
Variable getUserId : WebSocket -> string.

Local Abbreviation onMessage := (Relay.onMessage Number getUserId).
Local Abbreviation handleAll := (RelayRuns.handleAll Number getUserId).
Local Abbreviation rowOf := (Relay.rowOf Number getUserId).

Lemma handleAll_chats (received : list (WebSocket * ParsedData)) (w : World) :
  Forall (fun m => type (snd m) = "chat") received ->
  storeUp w = true ->
  users (handleAll received w) = users w /\
  storeUp (handleAll received w) = true /\
  chatTable (handleAll received w)
  = chatTable w ++ map (fun m => rowOf (fst m) (snd m)) received /\
  sent (handleAll received w)
  = sent w ++ flat_map (chatSends (users w)) received.
Proof.
  revert w. induction received as [|m received IH]; intros w All Up.
  - simpl. now rewrite !app_nil_r.
  - inversion All as [|? ? Ty Rest]; subst.
    unfold RelayRuns.handleAll. cbn [fold_left].
    rewrite (onMessage_chat _ _ _ _ Ty), onChat_up by assumption.
    cbn [worldOf].
    match goal with
    | |- context [fold_left _ received ?w1] =>
        destruct (IH w1 Rest eq_refl) as [U [S [T D]]];
        unfold RelayRuns.handleAll in U, S, T, D; rewrite U, S, T, D
    end.
    cbn [users chatTable sent flat_map map]. unfold chatSends at 2.
    now rewrite <- !app_assoc.
Qed.

End Handler.

End RelayMoreFacts.

Module RelayMoreTheorems.
Import JsString Client Relay RelayFacts RelayRuns RelayMoreFacts.

Local Open Scope list_scope.

Section Handler.

Variable Number : string -> Z.
Variable getUserId : WebSocket -> string.

Local Abbreviation onMessage := (Relay.onMessage Number getUserId).
Local Abbreviation handleAll := (RelayRuns.handleAll Number getUserId).
Local Abbreviation rowOf := (Relay.rowOf Number getUserId).
Local Abbreviation matches := (Relay.matches Number).

(** X17: the chat branch never looks at the rooms of the sender: a chat
    for a room from a connection that has not joined it is written to the
    table and sent to the open members of the room like any other, and
    nothing is sent to the sender. *)
Theorem chat_from_outside_the_room
    (w : World) (socket : WebSocket) (pd : ParsedData) :
  type pd = "chat" ->
  storeUp w = true ->
  (forall u : User,
      In u (users w) -> sockOf u = sock socket -> ~ In (roomId pd) (rooms u)) ->
  exists w' : World,
    onMessage socket pd w = Fulfilled tt w' /\
    chatTable w' = chatTable w ++ [rowOf socket pd] /\
    newSends w w'
    = deliveries (chat_msg (message pd) (roomId pd))
                 (openMembers (roomId pd) (users w)) /\
    sentTo (sock socket) (newSends w w') = [].
Proof.
  intros Ty Up Outside. rewrite (onMessage_chat _ _ _ _ Ty).
  eexists. split; [apply onChat_up; exact Up|]. cbn [chatTable].
  split; [reflexivity|].
  erewrite newSends_app by reflexivity. split; [reflexivity|].
  apply sentTo_not_target. rewrite targets_deliveries. intros Hin.
  apply in_map_iff in Hin. destruct Hin as [u [E Hu]].
  apply openMembers_In in Hu. destruct Hu as [Hu [Hroom _]].
  exact (Outside u Hu E Hroom).
Qed.

(** X18: a shape drawn and then deleted leaves no row: for a shape whose
    identifier is serialized as it is (no quote, backslash or control
    character in it), the chat carrying the serialized shape followed by
    the delete of its identifier in the same room leaves the table without
    the new row: the table is the one before the draw, less the rows the
    delete matches. *)
Theorem draw_then_delete
    (w : World) (drawer eraser : WebSocket) (room : string) (shape : Shape) :
  plain (Client.id shape) ->
  storeUp w = true ->
  let draw := {| type := "chat"; roomId := room;
                 message := stringifyShape shape; shapeId := "" |} in
  let erase := {| type := "delete_shape"; roomId := room;
                  message := ""; shapeId := Client.id shape |} in
  exists w1 w2 : World,
    onMessage drawer draw w = Fulfilled tt w1 /\
    In (rowOf drawer draw) (chatTable w1) /\
    onMessage eraser erase w1 = Fulfilled tt w2 /\
    chatTable w2 = filter (fun row => negb (matches erase row)) (chatTable w) /\
    ((forall row, In row (chatTable w) -> matches erase row = false) ->
     chatTable w2 = chatTable w).
Proof.
  intros Plain Up draw erase.
  assert (Hit : matches erase (rowOf drawer draw) = true).
  { unfold Relay.matches, Relay.rowOf. cbn [Prisma.roomId Prisma.message].
    subst draw erase. cbn [roomId message shapeId].
    rewrite Z.eqb_refl. cbn [andb]. now apply includes_own_id. }
  eexists. eexists.
  split; [rewrite (onMessage_chat _ _ _ draw eq_refl); apply onChat_up; exact Up|].
  cbn [chatTable]. split; [apply in_or_app; right; now left|].
  split; [rewrite (onMessage_delete_shape _ _ _ erase eq_refl);
          apply onDeleteShape_up; reflexivity|].
  cbn [chatTable].
  assert (E : filter (fun row => negb (matches erase row))
                (chatTable w ++ [rowOf drawer draw])
              = filter (fun row => negb (matches erase row)) (chatTable w)).
  { rewrite filter_app. cbn [filter]. rewrite Hit. cbn [negb]. apply app_nil_r. }
  split; [exact E|].
  intros Clean. rewrite E. apply RelayTheorems.filter_all.
  intros row Hrow. now rewrite (Clean row Hrow).
Qed.

(** X19: rows are kept under the number of the room identifier, members
    under its text: when two different identifiers have the same number, a
    delete sent for one removes the matching row drawn under the other,
    while the directive goes to the members of the first only, so a
    connection that has joined only the room of the draw is not told. *)
Theorem same_number_other_room
    (w : World) (drawer eraser : WebSocket) (draw erase : ParsedData)
    (u : User) :
  type draw = "chat" ->
  type erase = "delete_shape" ->
  Number (roomId draw) = Number (roomId erase) ->
  roomId draw <> roomId erase ->
  includes (idPattern (shapeId erase)) (message draw) = true ->
  storeUp w = true ->
  NoDup (map sockOf (users w)) ->
  In u (users w) ->
  rooms u = [roomId draw] ->
  exists w1 w2 : World,
    onMessage drawer draw w = Fulfilled tt w1 /\
    In (rowOf drawer draw) (chatTable w1) /\
    onMessage eraser erase w1 = Fulfilled tt w2 /\
    ~ In (rowOf drawer draw) (chatTable w2) /\
    sentTo (sockOf u) (newSends w1 w2) = [].
Proof.
  intros Td Te Same Diff Inc Up ND Hu Rooms.
  eexists. eexists.
  split; [rewrite (onMessage_chat _ _ _ _ Td); apply onChat_up; exact Up|].
  cbn [chatTable]. split; [apply in_or_app; right; now left|].
  split; [rewrite (onMessage_delete_shape _ _ _ _ Te);
          apply onDeleteShape_up; reflexivity|].
  cbn [chatTable]. split.
  - intros Hin. apply filter_In in Hin. destruct Hin as [_ Hin].
    unfold Relay.matches, Relay.rowOf in Hin.
    cbn [Prisma.roomId Prisma.message] in Hin.
    rewrite Same, Z.eqb_refl, Inc in Hin. discriminate.
  - erewrite newSends_app by reflexivity. cbn [users].
    apply sentTo_not_target. rewrite targets_deliveries. intros Hin.
    apply in_map_iff in Hin. destruct Hin as [v [E Hv]].
    apply usersInRoom_In in Hv. destruct Hv as [Hv Hroom].
    assert (v = u) by (eapply RelayTheorems.sockOf_injective; eauto).
    subst v. rewrite Rooms in Hroom. destruct Hroom as [E' | []]. congruence.
Qed.

(** X20: what a member receives is what the table holds: when chats for
    one room are handled one after the other and the store answers, the
    rows added to the table carry the received payloads in the order of
    arrival, and a member of the room whose socket is open is sent exactly
    those payloads, once each, in the same order. *)
Theorem rows_and_deliveries_agree
    (received : list (WebSocket * ParsedData)) (w : World) (room : string)
    (u : User) :
  Forall (fun m => type (snd m) = "chat" /\ roomId (snd m) = room) received ->
  storeUp w = true ->
  NoDup (map sockOf (users w)) ->
  In u (users w) ->
  In room (rooms u) ->
  readyState (ws u) = OPEN ->
  chatTable (handleAll received w)
  = chatTable w ++ map (fun m => rowOf (fst m) (snd m)) received /\
  sentTo (sockOf u) (newSends w (handleAll received w))
  = map (fun m => chat_msg (message (snd m)) room) received /\
  users (handleAll received w) = users w.
Proof.
  intros All Up ND Hu Hroom Hopen.
  assert (Chats : Forall (fun m => type (snd m) = "chat") received).
  { eapply Forall_impl; [|exact All]. simpl. tauto. }
  destruct (handleAll_chats Number getUserId received w Chats Up)
    as [U [_ [T S]]].
  split; [exact T|]. split; [|exact U].
  rewrite (newSends_app _ _ _ S).
  clear T S U Chats.
  induction received as [|m received IH]; [reflexivity|].
  inversion All as [|? ? [Ty Rm] Rest]; subst.
  cbn [flat_map map]. rewrite sentTo_app, (IH Rest). f_equal.
  unfold chatSends. rewrite RelayTheorems.openMembers_filter.
  rewrite sentTo_deliveries_once by assumption.
  apply includesRoom_In in Hroom. apply RelayTheorems.isOPEN_true in Hopen.
  now rewrite Hroom, Hopen.
Qed.

End Handler.

End RelayMoreTheorems.

(** ** More facts about the listeners of the canvas *)

Module ZoomAndPanMoreFacts.
Import ZoomAndPan ZoomAndPanFacts TouchEntries.

Local Open Scope list_scope.

Lemma remove_is_filter (type : string) (cb : Handler) (t : EventTarget) :
  NoDup t ->
  removeEventListener type cb t
  = filter (fun l => negb (Listener_eqb {| eventType := type; callback := cb |} l)) t.
Proof.
  induction 1 as [|x t Hx Ht IH]; simpl; [reflexivity|].
  destruct (Listener_eqb _ x) eqn:E; simpl.
  - apply Listener_eqb_eq in E. subst x. symmetry.
    apply RelayTheorems.filter_all. intros y Hy. apply negb_true_iff.
    apply not_true_is_false. intros Ey. apply Listener_eqb_eq in Ey.
    subst y. contradiction.
  - now rewrite IH.
Qed.

Lemma filter_twice {A : Type} (f g : A -> bool) (l : list A) :
  filter f (filter g l) = filter (fun x => g x && f x) l.
Proof.
  induction l as [|x l IH]; simpl; [reflexivity|].
  destruct (g x); simpl; [destruct (f x)|]; now rewrite IH.
Qed.

Lemma add_cases (type : string) (cb : Handler) (t : EventTarget) :
  addEventListener type cb t = t \/
  addEventListener type cb t = t ++ [ {| eventType := type; callback := cb |} ].
Proof. unfold addEventListener. destruct (existsb _ t); auto. Qed.

Lemma add_registered (type : string) (cb : Handler) (t : EventTarget) :
  In {| eventType := type; callback := cb |} t ->
  addEventListener type cb t = t.
Proof.
  intros H. unfold addEventListener.
  apply registered_In in H. unfold registered in H. now rewrite H.
Qed.

Lemma add_unregistered (type : string) (cb : Handler) (t : EventTarget) :
  ~ In {| eventType := type; callback := cb |} t ->
  addEventListener type cb t = t ++ [ {| eventType := type; callback := cb |} ].
Proof.
  intros H. unfold addEventListener.
  destruct (existsb _ t) eqn:E; [|reflexivity].
  exfalso. apply H. now apply registered_In.
Qed.

Lemma NoDup_calls (cs : list Call) (t : EventTarget) :
  NoDup t -> NoDup (calls cs t).
Proof.
  unfold calls. revert t. induction cs as [|c cs IH]; simpl; auto.
  intros t H. apply IH. now apply NoDup_call.
Qed.

Lemma not_touch_filter (t : EventTarget) :
  filter (fun l => negb (Listener_eqb touchEndEntry l))
    (filter (fun l => negb (Listener_eqb touchMoveEntry l))
       (filter (fun l => negb (Listener_eqb touchStartEntry l)) t))
  = filter (fun l => negb (isTouchEntry l)) t.
Proof.
  rewrite !filter_twice. apply filter_ext. intros l. unfold isTouchEntry.
  destruct (Listener_eqb touchStartEntry l), (Listener_eqb touchMoveEntry l),
    (Listener_eqb touchEndEntry l); reflexivity.
Qed.

End ZoomAndPanMoreFacts.

Module ZoomAndPanMoreTheorems.
Import ZoomAndPan ZoomAndPanFacts TouchEntries ZoomAndPanMoreFacts.

Local Open Scope list_scope.

(** X21: on a canvas whose listener list has no repeated entry,
    initZoomAndPan leaves every listener that is not one of its three
    touch entries registered, in the order it had, with the wheel handler
    behind them if it was not registered yet; the touchend entry comes
    last, and nothing else is on the list. *)
Theorem initZoomAndPan_closed_form (canvas : EventTarget) :
  NoDup canvas ->
  initZoomAndPan canvas
  = filter (fun l => negb (isTouchEntry l))
           (addEventListener "wheel" wheelHandler canvas)
    ++ [touchEndEntry].
Proof.
  intros ND.
  set (t1 := addEventListener "wheel" wheelHandler canvas).
  set (t2 := addEventListener "touchstart" touchStartHandler t1).
  set (t3 := addEventListener "touchmove" touchMoveHandler t2).
  assert (ND3 : NoDup t3) by (repeat apply NoDup_add; exact ND).
  set (t4 := removeEventListener "touchstart" touchStartHandler t3).
  set (t5 := removeEventListener "touchmove" touchMoveHandler t4).
  set (t6 := removeEventListener "touchend" touchEndHandler t5).
  assert (ND4 : NoDup t4) by now apply NoDup_remove.
  assert (ND5 : NoDup t5) by now apply NoDup_remove.
  assert (E : initZoomAndPan canvas
              = addEventListener "touchend" touchEndHandler t6)
    by reflexivity.
  rewrite E. unfold t6. rewrite (remove_is_filter _ _ t5 ND5).
  unfold t5. rewrite (remove_is_filter _ _ t4 ND4).
  unfold t4. rewrite (remove_is_filter _ _ t3 ND3).
  fold touchStartEntry touchMoveEntry touchEndEntry.
  rewrite not_touch_filter.
  assert (F : filter (fun l => negb (isTouchEntry l)) t3
              = filter (fun l => negb (isTouchEntry l)) t1).
  { unfold t3, t2.
    destruct (add_cases "touchmove" touchMoveHandler
                (addEventListener "touchstart" touchStartHandler t1)) as [-> | ->];
    destruct (add_cases "touchstart" touchStartHandler t1) as [-> | ->];
    rewrite ?filter_app; cbn [filter]; rewrite ?app_nil_r; reflexivity. }
  rewrite F. apply add_unregistered. intros Hin.
  apply filter_In in Hin. destruct Hin as [_ Hin]. discriminate.
Qed.

Lemma initZoomAndPan_closed_form_witness :
  initZoomAndPan [ {| eventType := "mousedown"; callback := mouseDownHandler |};
                   touchEndEntry ]
  = [ {| eventType := "mousedown"; callback := mouseDownHandler |};
      {| eventType := "wheel"; callback := wheelHandler |};
      touchEndEntry ].
Proof.
  apply (initZoomAndPan_closed_form
           [ {| eventType := "mousedown"; callback := mouseDownHandler |};
             touchEndEntry ]).
  repeat constructor; simpl; intuition discriminate.
Defined.

(** X22: calling initZoomAndPan again changes nothing: on a canvas whose
    listener list has no repeated entry, the list after a second call is the
    list after the first, so no listener piles up. *)
Theorem initZoomAndPan_idempotent (canvas : EventTarget) :
  NoDup canvas ->
  initZoomAndPan (initZoomAndPan canvas) = initZoomAndPan canvas.
Proof.
  intros ND.
  assert (ND' : NoDup (initZoomAndPan canvas)) by now apply NoDup_calls.
  pose proof (initZoomAndPan_closed_form canvas ND) as Once.
  remember (initZoomAndPan canvas) as once eqn:Def. clear Def.
  rewrite (initZoomAndPan_closed_form once ND').
  assert (Wheel : In {| eventType := "wheel"; callback := wheelHandler |} once).
  { rewrite Once. apply in_or_app. left.
    apply filter_In. split; [|reflexivity]. apply In_add. now left. }
  rewrite (add_registered _ _ _ Wheel).
  rewrite Once at 1. rewrite filter_app. cbn [filter].
  rewrite RelayTheorems.filter_idempotent.
  rewrite app_nil_r. now rewrite Once.
Qed.

Lemma initZoomAndPan_idempotent_witness :
  initZoomAndPan (initZoomAndPan []) = initZoomAndPan [].
Proof. apply (initZoomAndPan_idempotent []). constructor. Defined.

End ZoomAndPanMoreTheorems.

(** ** More scenarios of the room with two connections *)

Module MoreScenarios.
Import JsString Client Relay RelayRuns Scene.

Local Open Scope list_scope.

Ltac distinct_sockets :=
  simpl; repeat constructor; simpl; intuition discriminate.


Lemma chat_from_outside_the_room_witness :
  exists w' : World,
    Relay.onMessage decimalNumber identityOf c3 (draw "s1") (withThird joined)
    = Fulfilled tt w' /\
    sentTo 3 (newSends (withThird joined) w') = [].
Proof.
  destruct (RelayMoreTheorems.chat_from_outside_the_room
              decimalNumber identityOf (withThird joined) c3 (draw "s1")
              eq_refl eq_refl) as [w' [H1 [_ [_ H4]]]].
  - intros u Hin Hsock Hroom. simpl in Hin.
    destruct Hin as [<- | [<- | [<- | []]]]; simpl in *;
      try discriminate; intuition discriminate.
  - exists w'. split; [exact H1 | exact H4].
Defined.

Lemma draw_then_delete_witness :
  exists w1 w2 : World,
    Relay.onMessage decimalNumber identityOf c1 (draw "s1") joined
    = Fulfilled tt w1 /\
    Relay.onMessage decimalNumber identityOf c2 (delete "1" "s1") w1
    = Fulfilled tt w2 /\
    chatTable w2 = chatTable joined.
Proof.
  destruct (RelayMoreTheorems.draw_then_delete
              decimalNumber identityOf joined c1 c2 "1" (circle "s1")
              eq_refl eq_refl) as [w1 [w2 [H1 [_ [H3 [_ H5]]]]]].
  exists w1, w2. split; [exact H1|]. split; [exact H3|].
  apply H5. intros row [].
Defined.

Lemma same_number_other_room_witness :
  exists w1 w2 : World,
    Relay.onMessage decimalNumber identityOf c1 (draw "s1") joined
    = Fulfilled tt w1 /\
    Relay.onMessage decimalNumber identityOf c2 (delete "01" "s1") w1
    = Fulfilled tt w2 /\
    sentTo 1 (newSends w1 w2) = [].
Proof.
  assert (ND : NoDup (map sockOf (users joined))) by distinct_sockets.
  destruct (RelayMoreTheorems.same_number_other_room
              decimalNumber identityOf joined c1 c2 (draw "s1")
              (delete "01" "s1") userA eq_refl eq_refl eq_refl)
    as [w1 [w2 [H1 [_ [H3 [_ H5]]]]]].
  - discriminate.
  - reflexivity.
  - reflexivity.
  - exact ND.
  - simpl. auto.
  - reflexivity.
  - exists w1, w2. split; [exact H1|]. split; [exact H3 | exact H5].
Defined.

Lemma rows_and_deliveries_agree_witness :
  sentTo 2 (newSends joined
              (handleAll decimalNumber identityOf
                 [(c1, draw "s1"); (c2, draw "s2")] joined))
  = [ chat_msg (stringifyShape (circle "s1")) "1";
      chat_msg (stringifyShape (circle "s2")) "1" ].
Proof.
  assert (ND : NoDup (map sockOf (users joined))) by distinct_sockets.
  apply (RelayMoreTheorems.rows_and_deliveries_agree
           decimalNumber identityOf [(c1, draw "s1"); (c2, draw "s2")]
           joined "1" userB).
  - repeat constructor.
  - reflexivity.
  - exact ND.
  - simpl. auto.
  - simpl. auto.
  - reflexivity.
Defined.

End MoreScenarios.

(** ** Facts about the touch handlers *)

Module TouchTheorems.
Import ZoomAndPan ZoomAndPanFacts TouchEntries ZoomAndPanMoreFacts Touch.

Local Open Scope list_scope.

Section Numbers.

Variable number : Type.
Variables zero two tenth five : number.
Variables add sub mul div max min pow : number -> number -> number.
Variable sqrt : number -> number.
Variables gt neq : number -> number -> bool.
Variable otherHandler :
  Handler -> TouchEvent number -> Game number -> Game number * list (Effect number).

Local Abbreviation touchStart := (Touch.touchStart number two add sub pow sqrt).
Local Abbreviation touchMove :=
  (Touch.touchMove number zero two tenth five add sub mul div max min pow sqrt
     gt neq).
Local Abbreviation touchEnd := (Touch.touchEnd number zero).
Local Abbreviation fire :=
  (Touch.fire number zero two tenth five add sub mul div max min pow sqrt
     gt neq otherHandler).
Local Abbreviation fireAll :=
  (Touch.fireAll number zero two tenth five add sub mul div max min pow sqrt
     gt neq otherHandler).

Lemma run_app (a b : list (Game number -> Game number * list (Effect number)))
    (g : Game number) :
  run (a ++ b) g
  = (fst (run b (fst (run a g))), snd (run a g) ++ snd (run b (fst (run a g)))).
Proof.
  unfold run.
  set (f := fun (acc : Game number * list (Effect number))
                (step : Game number -> Game number * list (Effect number)) =>
              let (g', effects) := step (fst acc) in (g', snd acc ++ effects)).
  assert (G : forall l (g0 : Game number) (e0 : list (Effect number)),
    fold_left f l (g0, e0)
    = (fst (fold_left f l (g0, [])), e0 ++ snd (fold_left f l (g0, [])))).
  { induction l as [|step l IH]; intros g0 e0; cbn [fold_left fst snd].
    - now rewrite app_nil_r.
    - unfold f at 2 4 6. cbn [fst snd]. destruct (step g0) as [g' effects].
      rewrite (IH g' (e0 ++ effects)), (IH g' ([] ++ effects)).
      cbn [fst snd app]. now rewrite <- app_assoc. }
  rewrite fold_left_app.
  destruct (fold_left f a (g, [])) as [g1 e1]. cbn [fst snd]. apply G.
Qed.

Lemma run_single_moves (points : list (TouchPoint number)) (g : Game number) :
  run (map (fun q => touchMove {| touches := [q] |}) points) g
  = (g, flat_map (fun q => [PreventDefault; MouseMove (clientX q) (clientY q)])
                 points).
Proof.
  induction points as [|q points IH]; [reflexivity|].
  change (map (fun q => touchMove {| touches := [q] |}) (q :: points))
    with ([touchMove {| touches := [q] |}]
          ++ map (fun q => touchMove {| touches := [q] |}) points).
  rewrite run_app. cbn [run fold_left Touch.touchMove touches fst snd app].
  fold (run (map (fun q => touchMove {| touches := [q] |}) points) g).
  rewrite IH. reflexivity.
Qed.

(** X23: a drag with one finger ends where it began: after a touch start
    with one touch at a point, any number of moves with one touch, and a
    touch end with no touch left, the mouse handlers have been given a mouse
    down at the point, a mouse move at each position of the finger, and a
    mouse up at the point of the start, not at the last position; the zoom
    and the offsets are untouched. *)
Theorem one_finger_drag (now : Z) (p : TouchPoint number)
    (points : list (TouchPoint number)) (g : Game number) :
  let result :=
    run ([touchStart now {| touches := [p] |}]
         ++ map (fun q => touchMove {| touches := [q] |}) points
         ++ [touchEnd {| touches := [] |}]) g in
  snd result
  = [PreventDefault; MouseDown (clientX p) (clientY p)]
    ++ flat_map (fun q => [PreventDefault; MouseMove (clientX q) (clientY q)])
                points
    ++ [PreventDefault; MouseUp (clientX p) (clientY p)] /\
  scale (fst result) = scale g /\
  offsetX (fst result) = offsetX g /\
  offsetY (fst result) = offsetY g /\
  lastTouchDistance (fst result) = zero.
Proof.
  cbv zeta. rewrite run_app, run_app, run_single_moves.
  cbn [run fold_left Touch.touchStart Touch.touchEnd touches fst snd app
       touchStartPos scale offsetX offsetY lastTouchDistance].
  repeat split.
Qed.

Lemma dispatch_app (type : string) (a b : EventTarget) :
  dispatch type (a ++ b) = dispatch type a ++ dispatch type b.
Proof. unfold dispatch. now rewrite filter_app, map_app. Qed.

Lemma dispatch_none (type : string) (t : EventTarget) :
  (forall l, In l t -> eventType l <> type) -> dispatch type t = [].
Proof.
  unfold dispatch. induction t as [|x t IH]; intros H; simpl; auto.
  destruct (String.eqb_spec (eventType x) type) as [E | _].
  - exfalso. apply (H x); [now left | exact E].
  - apply IH. intros l Hl. apply H. now right.
Qed.

(** On the canvas initZoomAndPan leaves, a touch type reaches the touchend
    handler or nobody. *)
Lemma dispatch_after_init (canvas : EventTarget) (type : string) :
  NoDup canvas ->
  (forall l, In l canvas -> isTouchType (eventType l) = false) ->
  isTouchType type = true ->
  dispatch type (initZoomAndPan canvas)
  = if String.eqb type "touchend" then [touchEndHandler] else [].
Proof.
  intros ND Plain Touch.
  rewrite (ZoomAndPanMoreTheorems.initZoomAndPan_closed_form canvas ND).
  rewrite dispatch_app, dispatch_none.
  - unfold dispatch. cbn [filter map touchEndEntry eventType callback app].
    rewrite String.eqb_sym. now destruct (String.eqb type "touchend").
  - intros l Hl E. apply filter_In in Hl. destruct Hl as [Hl _].
    apply In_add in Hl. destruct Hl as [-> | Hl].
    + cbn [eventType] in E. subst type. discriminate.
    + rewrite <- E in Touch. rewrite (Plain l Hl) in Touch. discriminate.
Qed.

(** X24: after initZoomAndPan touch input is all but dead: on a canvas that
    had no listener of a touch type and no repeated entry, touch events of
    whatever kind, in whatever number, give the mouse handlers no mouse
    down and no mouse move and redraw nothing; only a touch end does
    something: it prevents the default, and with no touch left it hands
    over a mouse up at the start position the fields held before the
    events, which no event updates.  The zoom, the offsets, the start
    position and the start time stay as they were. *)
Theorem touch_after_initZoomAndPan (canvas : EventTarget)
    (events : list (string * Z * TouchEvent number)) (g : Game number) :
  NoDup canvas ->
  (forall l, In l canvas -> isTouchType (eventType l) = false) ->
  Forall (fun ev => isTouchType (fst (fst ev)) = true) events ->
  let result := fireAll events (initZoomAndPan canvas) g in
  snd result = flat_map (endOnly g) events /\
  scale (fst result) = scale g /\
  offsetX (fst result) = offsetX g /\
  offsetY (fst result) = offsetY g /\
  touchStartPos (fst result) = touchStartPos g /\
  touchStartTime (fst result) = touchStartTime g.
Proof.
  intros ND Plain All. cbv zeta. unfold Touch.fireAll.
  set (step := fun (acc : Game number * list (Effect number))
                   (ev : string * Z * TouchEvent number) =>
                 let (g', effects) :=
                   fire (fst (fst ev)) (snd (fst ev)) (snd ev)
                        (initZoomAndPan canvas) (fst acc) in
                 (g', snd acc ++ effects)).
  assert (G : forall (g1 : Game number) (done : list (Effect number)),
    scale g1 = scale g -> offsetX g1 = offsetX g -> offsetY g1 = offsetY g ->
    touchStartPos g1 = touchStartPos g -> touchStartTime g1 = touchStartTime g ->
    snd (fold_left step events (g1, done)) = done ++ flat_map (endOnly g) events /\
    scale (fst (fold_left step events (g1, done))) = scale g /\
    offsetX (fst (fold_left step events (g1, done))) = offsetX g /\
    offsetY (fst (fold_left step events (g1, done))) = offsetY g /\
    touchStartPos (fst (fold_left step events (g1, done))) = touchStartPos g /\
    touchStartTime (fst (fold_left step events (g1, done))) = touchStartTime g).
  { induction events as [|ev events IH]; intros g1 done S X Y P T.
    - cbn [fold_left flat_map fst snd]. rewrite app_nil_r. repeat split; auto.
    - inversion All as [|? ? Tev Rest]; subst.
      cbn [fold_left flat_map]. unfold step at 2 4 6 8 10 12.
      cbn [fst snd]. unfold Touch.fire.
      rewrite (dispatch_after_init canvas (fst (fst ev)) ND Plain Tev).
      unfold endOnly at 1.
      destruct (String.eqb (fst (fst ev)) "touchend").
      + cbn [fold_left Touch.invoke Touch.touchEnd fst snd app].
        match goal with
        | |- context [fold_left step events (?g2, ?d2)] =>
            destruct (IH Rest g2 d2 S X Y P T) as [E Others]
        end.
        rewrite P in E, Others |- *.
        rewrite E, <- app_assoc. split; [reflexivity | exact Others].
      + cbn [fold_left fst snd app]. rewrite app_nil_r. apply (IH Rest); assumption. }
  specialize (G g [] eq_refl eq_refl eq_refl eq_refl eq_refl).
  cbn [app] in G. exact G.
Qed.

End Numbers.

End TouchTheorems.

(** ** More facts about shape identifiers *)

Module ShapeIdMoreFacts.
Import JsString ShapeId.

Local Abbreviation underscore := ("_"%char).

Lemma digits_no_underscore (d : Decimal.uint) :
  Forall (fun c => c <> underscore) (chars (NilEmpty.string_of_uint d)).
Proof.
  induction d; simpl; constructor; auto; discriminate.
Qed.

Lemma ofZ_no_underscore (n : Z) :
  Forall (fun c => c <> underscore) (chars (ofZ n)).
Proof.
  unfold ofZ, NilZero.string_of_int, NilZero.string_of_uint.
  destruct (Z.to_int n) as [d | d].
  - destruct d; try apply digits_no_underscore.
    repeat constructor. discriminate.
  - simpl. constructor; [discriminate|].
    destruct d; try apply digits_no_underscore.
    repeat constructor. discriminate.
Qed.

Lemma to_int_not_nil (n : Z) :
  Z.to_int n <> Decimal.Pos Decimal.Nil /\ Z.to_int n <> Decimal.Neg Decimal.Nil.
Proof.
  split; intros E; pose proof E as E0; apply (f_equal Z.of_int) in E;
    rewrite DecimalZ.of_to in E; simpl in E; subst n;
    vm_compute in E0; discriminate.
Qed.

Lemma ofZ_injective (a b : Z) : ofZ a = ofZ b -> a = b.
Proof.
  unfold ofZ. intros E.
  apply (f_equal NilZero.int_of_string) in E.
  destruct (to_int_not_nil a), (to_int_not_nil b).
  rewrite !NilZero.isi in E by assumption.
  inversion E as [E']. apply (f_equal Z.of_int) in E'.
  now rewrite !DecimalZ.of_to in E'.
Qed.

(** Two texts cut at their first underscore. *)
Lemma split_at_underscore (x x' y y' : string) :
  Forall (fun c => c <> underscore) (chars x) ->
  Forall (fun c => c <> underscore) (chars x') ->
  (x ++ String underscore y)%string = (x' ++ String underscore y')%string ->
  x = x' /\ y = y'.
Proof.
  revert x'. induction x as [|c x IH]; intros [|c' x'] Hx Hx' E; simpl in *.
  - inversion E. auto.
  - inversion E; subst. inversion Hx'; subst. congruence.
  - inversion E; subst. inversion Hx; subst. congruence.
  - inversion E; subst. inversion Hx; inversion Hx'; subst.
    destruct (IH x') as [-> ->]; auto.
Qed.

End ShapeIdMoreFacts.

Module ShapeIdMoreTheorems.
Import JsString ShapeId ShapeIdMoreFacts.

Local Abbreviation underscore := ("_"%char).

(** X25: two identifiers are the same only when they were generated at the
    same millisecond with the same random suffix: an identifier gives back
    its clock reading and its suffix. *)
Theorem generateShapeId_injective (now1 now2 : Z) (rnd1 rnd2 : string) :
  generateShapeId now1 rnd1 = generateShapeId now2 rnd2 <->
  now1 = now2 /\ randomSuffix rnd1 = randomSuffix rnd2.
Proof.
  split.
  - unfold generateShapeId. intros E.
    simpl in E. inversion E as [E'].
    destruct (split_at_underscore _ _ _ _
                (ofZ_no_underscore now1) (ofZ_no_underscore now2) E')
      as [T S].
    split; [now apply ofZ_injective | exact S].
  - intros [-> S]. unfold generateShapeId. now rewrite S.
Qed.

End ShapeIdMoreTheorems.

(** ** Facts about shape validation *)

Module ValidationTheorems.
Import Validation.

Local Open Scope list_scope.

Lemma property_geometry (key : string) (fields : list (string * Z))
    (object : JsMap.t JsValue) :
  let result :=
    fold_left
      (fun object field => JsMap.set (fst field) (JsNumber (snd field)) object)
      fields object in
  if existsb (fun field => String.eqb (fst field) key) fields
  then isNumber (property key result) = true
  else property key result = property key object.
Proof.
  cbv zeta. revert object.
  induction fields as [|[k v] fields IH]; intros object; cbn [fold_left existsb fst snd].
  - reflexivity.
  - specialize (IH (JsMap.set k (JsNumber v) object)).
    destruct (existsb _ fields) eqn:Later.
    + now rewrite orb_true_r.
    + rewrite orb_false_r, IH. unfold property.
      destruct (String.eqb_spec k key) as [-> | Hne].
      * now rewrite JsMapFacts.get_set_same.
      * now rewrite JsMapFacts.get_set_other.
Qed.

(** X26: a shape as the client draws it passes the validation exactly when
    its type is circle, rect, pencil or text and its geometry has a field x
    and a field y; a type outside the four is reported first, whatever the
    coordinates, and a shape of an allowed type that keeps its position
    under other names, as the circle with centerX and centerY, is refused
    for its coordinates. *)
Theorem validateShape_client_shape (shape : Client.Shape) :
  hasField "type" shape = false ->
  validateShape (objectOf shape)
  = if negb (existsb (String.eqb (Client.type shape)) allowedTypes)
    then InvalidShapeType
    else if hasField "x" shape && hasField "y" shape
         then Valid
         else InvalidCoordinates.
Proof.
  intros NoType. unfold validateShape, objectOf, hasField in *.
  pose proof (property_geometry "type" (Client.geometry shape)
                [ ("id", JsString (Client.id shape));
                  ("type", JsString (Client.type shape)) ]) as T.
  pose proof (property_geometry "x" (Client.geometry shape)
                [ ("id", JsString (Client.id shape));
                  ("type", JsString (Client.type shape)) ]) as X.
  pose proof (property_geometry "y" (Client.geometry shape)
                [ ("id", JsString (Client.id shape));
                  ("type", JsString (Client.type shape)) ]) as Y.
  cbv zeta in T, X, Y. rewrite NoType in T. rewrite T.
  change (property "type" _) with (JsString (Client.type shape)).
  cbn [isAllowedType].
  destruct (existsb (String.eqb (Client.type shape)) allowedTypes);
    cbn [negb]; [|reflexivity].
  destruct (existsb (fun field => String.eqb (fst field) "x")
              (Client.geometry shape));
    destruct (existsb (fun field => String.eqb (fst field) "y")
                (Client.geometry shape));
    rewrite ?X, ?Y; try rewrite X; try rewrite Y; reflexivity.
Qed.

Lemma validateShape_client_shape_witness :
  validateShape (objectOf (Scene.circle "s1")) = InvalidCoordinates.
Proof.
  apply (validateShape_client_shape (Scene.circle "s1")); reflexivity.
Defined.

End ValidationTheorems.

(** ** A tap on the canvas *)

Module TouchScenarios.
Import ZoomAndPan TouchEntries Touch.

Local Open Scope list_scope.

Lemma touch_after_initZoomAndPan_witness :
  snd (Touch.fireAll Z 0%Z 2%Z 0%Z 5%Z Z.add Z.sub Z.mul Z.div Z.max Z.min
         Z.pow Z.sqrt Z.gtb (fun a b => negb (Z.eqb a b))
         (fun _ _ g => (g, []))
         [ ("touchstart", 10%Z,
            {| touches := [ {| clientX := 40%Z; clientY := 30%Z |} ] |});
           ("touchend", 90%Z, {| touches := [] |}) ]
         (initZoomAndPan
            [ {| eventType := "mousedown"; callback := mouseDownHandler |} ])
         {| scale := 1%Z; offsetX := 0%Z; offsetY := 0%Z;
            lastTouchDistance := 0%Z; touchStartTime := 0%Z;
            touchStartPos := (0%Z, 0%Z) |})
  = [PreventDefault; MouseUp 0%Z 0%Z].
Proof.
  apply (TouchTheorems.touch_after_initZoomAndPan Z 0%Z 2%Z 0%Z 5%Z
           Z.add Z.sub Z.mul Z.div Z.max Z.min Z.pow Z.sqrt Z.gtb
           (fun a b => negb (Z.eqb a b)) (fun _ _ g => (g, []))
           [ {| eventType := "mousedown"; callback := mouseDownHandler |} ]).
  - repeat constructor. intros [].
  - intros l [<- | []]. reflexivity.
  - repeat constructor.
Defined.

End TouchScenarios.

(** ** The text a delete looks for *)

Module IdTextFacts.
Import JsString Client Relay JsonText.

Local Abbreviation append_assoc := RelayMoreFacts.append_assoc.

Local Abbreviation Q := ("034"%char).
Local Abbreviation BS := ("092"%char).
Local Abbreviation idField p :=
  (String Q (String "i"%char (String "d"%char
     (String Q (String ":"%char (String Q p)))))).


























End IdTextFacts.

Module DeleteTheorems.
Import JsString Client Relay RelayFacts JsonText IdTextFacts.

(** The text ["id":"s"] for an identifier [s], character by character. *)
Local Abbreviation idText s :=
  (String "034"%char (String "i"%char (String "d"%char
     (String "034"%char (String ":"%char (String "034"%char
        (s ++ String "034"%char EmptyString))))))).




Section Handler.

Variable Number : string -> Z.
Variable getUserId : WebSocket -> string.

Local Abbreviation onMessage := (Relay.onMessage Number getUserId).
Local Abbreviation matches := (Relay.matches Number).


End Handler.

End DeleteTheorems.

Module DeleteScenarios.
Import JsString Client Relay Scene JsonText.

Local Abbreviation onMessage := (Relay.onMessage decimalNumber identityOf).

Local Abbreviation idText s :=
  (String "034"%char (String "i"%char (String "d"%char
     (String "034"%char (String ":"%char (String "034"%char
        (s ++ String "034"%char EmptyString))))))).




End DeleteScenarios.
